(** * ebay-crawler: the extraction engine of [src/ebay-crawler.go]

    A shallow embedding of the crawler: the parsed markup tree of
    [golang.org/x/net/html], the two tree searches, the attribute and text
    readers, the two regular expressions, the item pipeline
    [processItemNode] and the page loop of [main].

    Go strings are byte strings; they are modelled by [string], one
    [ascii] per byte.  A Go [error] is modelled by its message. *)

From Stdlib Require Import String Ascii List Bool Arith Lia ZArith DecimalString
  Permutation.
Import ListNotations.
Local Open Scope list_scope.
Local Open Scope string_scope.

Set Implicit Arguments.

(** ** Strings *)

Module Strings.

(** [strings.Contains(s, substr)]: [substr] occurs in [s]. *)
Fixpoint Contains (s substr : string) : bool :=
  String.prefix substr s ||
  match s with
  | EmptyString => false
  | String _ s' => Contains s' substr
  end.

(** The line feed of the Go literals ["\n"]. *)
Definition LF : string := String (ascii_of_nat 10) EmptyString.

(** [%d] of [fmt]. *)
Definition itoa (z : Z) : string := NilZero.string_of_int (Z.to_int z).

End Strings.

(** ** The markup tree: [html.Node] *)

Module Html.

(** [html.NodeType]. *)
Inductive NodeType : Type :=
| ErrorNode | TextNode | DocumentNode | ElementNode
| CommentNode | DoctypeNode | RawNode.

Definition NodeType_eqb (a b : NodeType) : bool :=
  match a, b with
  | ErrorNode, ErrorNode | TextNode, TextNode | DocumentNode, DocumentNode
  | ElementNode, ElementNode | CommentNode, CommentNode
  | DoctypeNode, DoctypeNode | RawNode, RawNode => true
  | _, _ => false
  end.

(** [html.Attribute]. *)
Record Attribute : Type := mkAttr { Namespace : string; Key : string; Val : string }.

(** [html.Node].  The sibling chain [FirstChild], [NextSibling] is the list
    [Children]; the code never follows [Parent]. *)
Unset Elimination Schemes.
Inductive Node : Type :=
  mkNode { Type_ : NodeType; Data : string; Attr : list Attribute; Children : list Node }.
Set Elimination Schemes.

Section Node_induction.
Variable P : Node -> Prop.
Hypothesis step : forall ty d attrs cs, Forall P cs -> P (mkNode ty d attrs cs).

Fixpoint Node_ind (n : Node) : P n :=
  match n with
  | mkNode ty d attrs cs =>
      step ty d attrs
        ((fix all (l : list Node) : Forall P l :=
            match l with
            | [] => Forall_nil P
            | c :: l' => Forall_cons c (Node_ind c) (all l')
            end) cs)
  end.
End Node_induction.

Definition isElement (n : Node) : bool := NodeType_eqb (Type_ n) ElementNode.
Definition isText (n : Node) : bool := NodeType_eqb (Type_ n) TextNode.

(** Document order: a node, then the subtrees of its children from left to
    right. *)
Fixpoint preorder (n : Node) : list Node :=
  n :: flat_map preorder (Children n).

(** The nodes a search reaches when it only enters children that are
    elements: a node, then what is reached from each element child. *)
Fixpoint elementOrder (n : Node) : list Node :=
  n :: flat_map (fun c => if isElement c then elementOrder c else []) (Children n).

(** What the parser builds: below the root only element nodes have
    children (text, comment and doctype nodes are leaves). *)
Fixpoint leafy (n : Node) : bool :=
  forallb (fun c => (isElement c || match Children c with [] => true | _ => false end) && leafy c)
          (Children n).

End Html.
Import Html.

(** ** Go slices of nodes: a nil slice differs from an empty one *)

Module Slice.

Inductive slice (A : Type) : Type :=
| Nil : slice A
| Mk : list A -> slice A.
Arguments Nil {A}.

Definition elems {A} (s : slice A) : list A :=
  match s with Nil => [] | Mk l => l end.

Definition isNil {A} (s : slice A) : bool :=
  match s with Nil => true | Mk _ => false end.

Definition len {A} (s : slice A) : nat := length (elems s).

(** [append(s, x)]: the result is never nil. *)
Definition append {A} (s : slice A) (x : A) : slice A := Mk (elems s ++ [x])%list.

End Slice.
Import Slice.

(** ** Tree matcher *)

Section TreeMatcher.

Import Strings.

(** The attribute loop of [findItemElementsByClass] (lines 128-140), with its
    two locals [class] and [id]; [true] when the loop reaches the [append]. *)
Fixpoint scanClassId (attrs : list Attribute) (className class id : string) : bool :=
  match attrs with
  | [] => false
  | a :: rest =>
      let class' :=
        if (Key a =? "class") && Contains (Val a) className then Val a else class in
      let id' :=
        if (Key a =? "class") && Contains (Val a) className then id
        else if (Key a =? "id") && negb (Val a =? "") then Val a else id in
      if negb (class' =? "") && negb (id' =? "") then true
      else scanClassId rest className class' id'
  end.

(** [findItemElementsByClass] (lines 123-148). *)
Fixpoint findItemElementsByClass (node : Node) (elementType className : string)
         (itemList : slice Node) : slice Node :=
  let itemList :=
    if isElement node && (Data node =? elementType) then
      if scanClassId (Attr node) className "" "" then append itemList node
      else itemList
    else itemList in
  (fix children (cs : list Node) (itemList : slice Node) : slice Node :=
     match cs with
     | [] => itemList
     | c :: cs' =>
         children cs' (findItemElementsByClass c elementType className itemList)
     end) (Children node) itemList.

(** Whether lines 124-141 append [node] to the collection. *)
Definition selected (elementType className : string) (node : Node) : bool :=
  isElement node && (Data node =? elementType)
  && scanClassId (Attr node) className "" "".

(** The attribute test of [findFirstElementByAttr] (lines 155-160). *)
Definition attrContains (attrName attrValue : string) (attrs : list Attribute) : bool :=
  existsb (fun a => (Key a =? attrName) && Contains (Val a) attrValue) attrs.

(** [findFirstElementByAttr] (lines 151-173); [nil] is [None].  The local
    [nodeFound] is only set on the line before a [return], so it is false
    whenever the loop over the children tests it. *)
Fixpoint findFirstElementByAttr (node : Node)
         (elementType attrName attrValue : string) : option Node :=
  if isElement node && (Data node =? elementType)
     && attrContains attrName attrValue (Attr node)
  then Some node
  else
    (fix children (cs : list Node) : option Node :=
       match cs with
       | [] => None
       | c :: cs' =>
           if isElement c then
             match findFirstElementByAttr c elementType attrName attrValue with
             | Some tempNode => Some tempNode
             | None => children cs'
             end
           else children cs'
       end) (Children node).

End TreeMatcher.

(** ** Readers *)

(** A Go result pair [(value, error)]. *)
Inductive Result (A : Type) : Type :=
| Ok : A -> Result A
| Err : string -> Result A.
Arguments Err {A} _.

Section Readers.

(** [getElementNodeVal] (lines 176-184): the data of the first direct
    child that is a text node. *)
Definition getElementNodeVal (node : Node) : Result string :=
  match find isText (Children node) with
  | Some c => Ok (Data c)
  | None => Err "ERROR::No text node found"
  end.

(** [getElementAttrByName] (lines 275-287).  On failure the Go function
    returns the empty string next to the error. *)
Definition getElementAttrByName (node : Node) (attrName : string) : Result string :=
  if isElement node then
    match find (fun a => Key a =? attrName) (Attr node) with
    | Some a => Ok (Val a)
    | None => Err ("ERROR::Attribute " ++ attrName ++ " not found")
    end
  else Err "ERROR::Node is not an element".

(** The string a Go call [v, err := f()] leaves in [v]. *)
Definition valueOf (r : Result string) : string :=
  match r with Ok v => v | Err _ => "" end.

End Readers.

(** ** Regular expressions: the fragment of [regexp] syntax the two patterns use

    Go's [regexp] finds the leftmost match and, among the matches that start
    there, the one a backtracking search with greedy repetitions finds first.
    The classes of both patterns are ASCII, so matching byte by byte agrees
    with matching rune by rune. *)

Module Regexp.

(** One-character matchers. *)
Inductive charset : Type :=
| Lit (c : ascii)            (* a literal, also an escaped one such as [\/] *)
| Digit                      (* [\d] *)
| Range (lo hi : ascii)      (* [[lo-hi]] *)
| OneOf (cs : list ascii).   (* [[...]] of single characters *)

Inductive regexp : Type :=
| Chr (c : charset)
| Cat (r1 r2 : regexp)
| Star (r : regexp)          (* [r*], greedy *)
| Opt (r : regexp)           (* [r?], greedy *)
| Group (i : nat) (r : regexp).  (* the [i]-th capturing group, from 1 *)

(** [r+] is [r] followed by [r*]. *)
Definition Plus (r : regexp) : regexp := Cat r (Star r).

Definition isDigit (c : ascii) : bool :=
  ((48 <=? nat_of_ascii c) && (nat_of_ascii c <=? 57))%nat.

Definition accepts (cs : charset) (c : ascii) : bool :=
  match cs with
  | Lit x => Ascii.eqb x c
  | Digit => isDigit c
  | Range lo hi =>
      ((nat_of_ascii lo <=? nat_of_ascii c) && (nat_of_ascii c <=? nat_of_ascii hi))%nat
  | OneOf l => existsb (Ascii.eqb c) l
  end.

(** The literal string [s] as a pattern followed by [r]. *)
Fixpoint lits (s : string) (r : regexp) : regexp :=
  match s with
  | EmptyString => r
  | String c s' => Cat (Chr (Lit c)) (lits s' r)
  end.

(** The first [n] bytes of [s]. *)
Definition take (n : nat) (s : string) : string := substring 0 n s.

(** What [from] lost to reach its suffix [to]. *)
Definition consumed (from to : string) : string :=
  take (String.length from - String.length to) from.

(** Captures: the text of each group that took part in the match. *)
Definition captures : Type := list (nat * string).

Fixpoint capture (i : nat) (caps : captures) : string :=
  match caps with
  | [] => ""
  | (j, v) :: rest => if Nat.eqb i j then v else capture i rest
  end.

Fixpoint groups (r : regexp) : nat :=
  match r with
  | Chr _ => 0
  | Cat r1 r2 => groups r1 + groups r2
  | Star r' | Opt r' => groups r'
  | Group _ r' => S (groups r')
  end.

Section Exec.
Variable A : Type.

(** Backtracking search: [exec r s caps k] matches [r] at the head of
    [s] and hands the rest to [k]; when [k] refuses, the next
    alternative in priority order is tried.  A repetition gives up an
    iteration that consumed nothing, so it runs at most
    [String.length s] times. *)
Fixpoint exec (r : regexp) (s : string) (caps : captures)
         (k : string -> captures -> option A) : option A :=
  match r with
  | Chr cs =>
      match s with
      | String c s' => if accepts cs c then k s' caps else None
      | EmptyString => None
      end
  | Cat r1 r2 => exec r1 s caps (fun s' caps' => exec r2 s' caps' k)
  | Opt r' =>
      match exec r' s caps k with
      | Some x => Some x
      | None => k s caps
      end
  | Star r' =>
      (fix loop (n : nat) (s : string) (caps : captures) : option A :=
         match n with
         | 0 => k s caps
         | S n' =>
             match exec r' s caps
                     (fun s' caps' =>
                        if (String.length s' <? String.length s)%nat
                        then loop n' s' caps' else None) with
             | Some x => Some x
             | None => k s caps
             end
         end) (String.length s) s caps
  | Group i r' =>
      exec r' s caps (fun s' caps' => k s' ((i, consumed s s') :: caps'))
  end.
End Exec.

(** The submatches of a match of [re] that starts at the head of [s]:
    the whole match, then each group (empty when it took no part). *)
Definition matchHere (re : regexp) (s : string) : option (list string) :=
  exec re s []
    (fun rest caps =>
       Some (consumed s rest :: map (fun i => capture i caps) (seq 1 (groups re)))).

(** [FindStringSubmatch] of a compiled pattern: the leftmost match;
    [nil] is [None]. *)
Fixpoint FindStringSubmatch (re : regexp) (s : string) : option (list string) :=
  match matchHere re s with
  | Some m => Some m
  | None =>
      match s with
      | EmptyString => None
      | String _ s' => FindStringSubmatch re s'
      end
  end.

End Regexp.
Import Regexp.

(** [priceRegEx] (line 24): [\d+[\.,]*\d*]. *)
Definition priceRegEx : regexp :=
  Cat (Plus (Chr Digit)) (Cat (Star (Chr (OneOf ["."%char; ","%char]))) (Star (Chr Digit))).

(** [itemIDRegEx] (line 25): [itm\/([0-9]+)\?]; the last character is an
    escaped, literal question mark. *)
Definition itemIDRegEx : regexp :=
  lits "itm/" (Cat (Group 1 (Plus (Chr (Range "0"%char "9"%char)))) (Chr (Lit "?"%char))).

(** ** What the two patterns find, without the engine *)

Module Tokens.

Fixpoint takeWhile (p : ascii -> bool) (s : string) : string :=
  match s with
  | EmptyString => EmptyString
  | String c s' => if p c then String c (takeWhile p s') else EmptyString
  end.

Fixpoint dropWhile (p : ascii -> bool) (s : string) : string :=
  match s with
  | EmptyString => EmptyString
  | String c s' => if p c then dropWhile p s' else s
  end.

Fixpoint all (p : ascii -> bool) (s : string) : bool :=
  match s with
  | EmptyString => true
  | String c s' => p c && all p s'
  end.

Definition isSeparator (c : ascii) : bool :=
  Ascii.eqb c "."%char || Ascii.eqb c ","%char.

(** From the first digit of [s]: the digits, the dots and commas after
    them, and the digits after those. *)
Definition priceToken (s : string) : option string :=
  match dropWhile (fun c => negb (isDigit c)) s with
  | EmptyString => None
  | s0 =>
      let afterDigits := dropWhile isDigit s0 in
      let afterSeparators := dropWhile isSeparator afterDigits in
      Some (takeWhile isDigit s0 ++ takeWhile isSeparator afterDigits
              ++ takeWhile isDigit afterSeparators)
  end.

(** [href] holds [itm/], the digits [id] and a question mark, in a row. *)
Definition holdsItemID (href id : string) : Prop :=
  id <> "" /\ all isDigit id = true /\
  exists pre post, href = pre ++ "itm/" ++ id ++ "?" ++ post.

End Tokens.

(** ** The outside world

    What the program reaches through the standard library: the file system
    behind [os.Mkdir] and [os.WriteFile], the JSON encoder, the HTTP client
    and the HTML parser.  Each fallible call returns its error, [None] for
    [nil]. *)

(** [ItemInfo] (lines 17-22). *)
Record ItemInfo : Type :=
  mkItemInfo { Title : string; Condition : string; Price : string; ProductURL : string }.

Class Platform : Type := {
  FS : Type;
  os_Mkdir : string -> FS -> FS * option string;
  os_WriteFile : string -> string -> FS -> FS * option string;
  json_MarshalIndent : ItemInfo -> string;
  Request : Type;
  Response : Type;
  http_NewRequest : string -> Result Request;
  http_Do : Request -> Result Response;
  io_ReadAll : Response -> Result string;
  html_Parse : string -> Result Node
}.

Section Crawler.

Context {platform : Platform}.
Import Strings.

(** The state the program acts on: what it printed, the file system, and
    the URLs it passed to [getPageHTML], each oldest first. *)
Record World : Type := mkWorld { stdout : list string; fs : FS; requests : list string }.

(** A computation that may print and write, and may return early with an
    error. *)
Definition M (A : Type) : Type := World -> Result A * World.

Definition ret {A} (a : A) : M A := fun w => (Ok a, w).

Definition fail {A} (err : string) : M A := fun w => (Err err, w).

Definition bind {A B} (m : M A) (f : A -> M B) : M B :=
  fun w =>
    match m w with
    | (Ok a, w') => f a w'
    | (Err e, w') => (Err e, w')
    end.

Notation "x <- m ;; f" := (bind m (fun x => f))
  (at level 61, m at next level, right associativity).

(** [v := e; if v == nil { return fmt.Errorf(msg) }]. *)
Definition orReturn {A} (o : option A) (msg : string) : M A :=
  match o with Some a => ret a | None => fail msg end.

(** [v, err := e; if err != nil { return fmt.Errorf(msg, err) }]. *)
Definition orWrap {A} (r : Result A) (msg : string -> string) : M A :=
  match r with Ok a => ret a | Err err => fail (msg err) end.

(** [fmt.Print] and [fmt.Printf], already formatted. *)
Definition Print (s : string) : M unit :=
  fun w => (Ok tt, mkWorld (stdout w ++ [s])%list (fs w) (requests w)).

(** [os.WriteFile(path, data, 0644)], returning its error. *)
Definition WriteFile (path data : string) : M (option string) :=
  fun w =>
    let '(fs', err) := os_WriteFile path data (fs w) in
    (Ok err, mkWorld (stdout w) fs' (requests w)).

(** [os.Mkdir(path, os.ModeDir)], returning its error. *)
Definition Mkdir (path : string) : M (option string) :=
  fun w =>
    let '(fs', err) := os_Mkdir path (fs w) in
    (Ok err, mkWorld (stdout w) fs' (requests w)).

(** [m] makes no request. *)
Definition keepsRequests {A} (m : M A) : Prop :=
  forall w, requests (snd (m w)) = requests w.

(** [m] never returns early. *)
Definition succeeds {A} (m : M A) : Prop :=
  forall w, exists a, fst (m w) = Ok a.

(** What [%s] prints for a nil [error]. *)
Definition nilError : string := "%!s(<nil>)".

(** [processItemNode] (lines 187-272).  The returned [error] is the
    [Err] of the result, [nil] is [Ok tt].  The deferred [wg.Done()] only
    releases the barrier of [main] and is not modelled. *)
Definition processItemNode (node : Node) : M unit :=
  itemLink <- orReturn (findFirstElementByAttr node "a" "class" "s-item__link")
                "ERROR::Item link node not found" ;;
  href <- orWrap (getElementAttrByName itemLink "href")
            (fun err => "ERROR::" ++ err) ;;
  matches <- orReturn (FindStringSubmatch itemIDRegEx href)
               ("ERROR::Price value cannot be parsed" ++ LF ++ nilError) ;;
  _ <- (if (length matches <? 2)%nat
        then fail "ERROR::Item ID cannot be parsed" else ret tt) ;;
  let itemID := nth 1 matches "" in
  priceNode <- orReturn (findFirstElementByAttr node "span" "class" "s-item__price")
                 "ERROR::Price node not found" ;;
  price <- orWrap (getElementNodeVal priceNode)
             (fun err => "ERROR::Price value not found" ++ LF ++ err) ;;
  matches <- orReturn (FindStringSubmatch priceRegEx price)
               ("ERROR::Price value cannot be parsed" ++ LF ++ nilError) ;;
  let price := nth 0 matches "" in
  titleDivNode <- orReturn (findFirstElementByAttr node "div" "class" "s-item__title")
                    "ERROR::Title DIV node not found" ;;
  titleNode <- orReturn (findFirstElementByAttr titleDivNode "span" "role" "heading")
                 "ERROR::Title SPAN node not found" ;;
  title <- orWrap (getElementNodeVal titleNode)
             (fun err => "ERROR::Title value not found" ++ LF ++ err) ;;
  condition <-
    match findFirstElementByAttr node "div" "class" "s-item__subtitle" with
    | None =>
        _ <- Print ("WARNING::Condition DIV node not found " ++ itemID ++ LF) ;;
        ret ""
    | Some subtitleNode =>
        conditionNode <-
          orReturn (findFirstElementByAttr subtitleNode "span" "class" "SECONDARY_INFO")
            "ERROR::Condition SPAN node not found" ;;
        orWrap (getElementNodeVal conditionNode)
          (fun err => "ERROR::Condition value not found" ++ LF ++ err)
    end ;;
  let item := {| Title := title; Condition := condition;
                 Price := price; ProductURL := href |} in
  let itemJSON := json_MarshalIndent item in
  _ <- WriteFile ("data/" ++ itemID ++ ".json") itemJSON ;;
  ret tt.

(** [getPageHTML] (lines 102-120). *)
Definition getPageHTML (url : string) : Result string :=
  match http_NewRequest url with
  | Err err => Err ("ERROR::Can't create request: " ++ err)
  | Ok req =>
      match http_Do req with
      | Err err => Err ("ERROR::Can't make http request: " ++ err)
      | Ok res =>
          match io_ReadAll res with
          | Err err => Err ("ERROR::Can't read http response body: " ++ err)
          | Ok body => Ok body
          end
      end
  end.

(** The item runs of one page (lines 77-87).  [main] starts one goroutine
    per item and waits for all of them; the [go] statement drops the
    returned error.  The runs are taken in the order of the collection,
    which is one of the schedules the barrier admits. *)
Definition dispatch (itemElementList : list Node) (w : World) : World :=
  fold_left (fun w node => snd (processItemNode node w)) itemElementList w.

(** The world after a run of [processItemNode] that found every field:
    the warning when [item] has no subtitle container, then the write of
    [record] under the id [i]. *)
Definition persisted (item : Node) (i : string) (record : ItemInfo) (w : World) : World :=
  snd (WriteFile ("data/" ++ i ++ ".json") (json_MarshalIndent record)
         (match findFirstElementByAttr item "div" "class" "s-item__subtitle" with
          | None => snd (Print ("WARNING::Condition DIV node not found " ++ i ++ LF) w)
          | Some _ => w
          end)).

(** The world of [main] once the items of a page are done (lines 72-87):
    the count is printed, the directory made, the items run. *)
Definition processed (itemElementList : slice Node) (w : World) : World :=
  dispatch (elems itemElementList)
    (snd (Mkdir "data"
            (snd (Print ("Found " ++ itoa (Z.of_nat (len itemElementList))
                                  ++ " items" ++ LF) w)))).

(** How one pass through the [for] loop of [main] ends. *)
Inductive Control : Type :=
| Exit (code : Z)              (* [os.Exit(code)] *)
| Break                        (* [break] *)
| Continue (pageURL : string). (* the next iteration, with its [pageURL] *)

Definition logRequest (url : string) (w : World) : World :=
  mkWorld (stdout w) (fs w) (requests w ++ [url])%list.

Definition say (s : string) (w : World) : World := snd (Print s w).

(** The body of the [for] loop of [main] (lines 38-98).  [hasMorePages] is
    [nextButtonNode != nil], so the last [if] is the match on
    [nextButtonNode].  The assignment [pageURL, err = ...] of line 91 stores
    the value returned next to the error. *)
Definition loopBody (pageURL : string) (w : World) : Control * World :=
  let w := logRequest pageURL w in
  match getPageHTML pageURL with
  | Err err => (Exit 1, say (err ++ LF) w)
  | Ok bodyHTML =>
      match html_Parse bodyHTML with
      | Err _ => (Exit 1, say ("Can't parse HTML" ++ LF) w)
      | Ok pageHTML =>
          let itemElementList :=
            findItemElementsByClass pageHTML "li" "s-item" (Mk []) in
          if isNil itemElementList then (Exit 1, say ("Failed to get items" ++ LF) w)
          else if (len itemElementList =? 0)%nat
          then (Exit 1, say ("Failed to get items" ++ LF) w)
          else
            let nextButtonNode :=
              findFirstElementByAttr pageHTML "a" "class" "pagination__next icon-link" in
            let w := say ("Found " ++ itoa (Z.of_nat (len itemElementList))
                                   ++ " items" ++ LF) w in
            let w := snd (Mkdir "data" w) in
            let w := dispatch (elems itemElementList) w in
            match nextButtonNode with
            | Some next =>
                match getElementAttrByName next "href" with
                | Ok href => (Continue href, w)
                | Err err =>
                    (Continue (valueOf (getElementAttrByName next "href")),
                     say ("ERROR::Failed to get next page " ++ err ++ LF) w)
                end
            | None => (Break, w)
            end
      end
  end.

(** The [for] loop of [main]; [fuel] bounds the number of pages.  The
    result is the exit status of the process, [0] when [main] returns. *)
Fixpoint crawl (fuel : nat) (pageURL : string) (w : World) : option (Z * World) :=
  match fuel with
  | 0 => None
  | S fuel' =>
      match loopBody pageURL w with
      | (Exit code, w') => Some (code, w')
      | (Break, w') => Some (0%Z, w')
      | (Continue next, w') => crawl fuel' next w'
      end
  end.


End Crawler.

Notation "x <- m ;; f" := (bind m (fun x => f))
  (at level 61, m at next level, right associativity).

(** Two computations, each on its platform, that return the same value or
    the same error whatever the worlds they run in. *)
Definition sameResult {P1 P2 : Platform} {A : Type} (m1 : @M P1 A) (m2 : @M P2 A) : Prop :=
  forall w1 w2, fst (m1 w1) = fst (m2 w2).

(** The platform [P] on another file system. *)
Definition withFS (P : Platform) (FS' : Type)
           (mkdir' : string -> FS' -> FS' * option string)
           (write' : string -> string -> FS' -> FS' * option string) : Platform := {|
  FS := FS';
  os_Mkdir := mkdir';
  os_WriteFile := write';
  json_MarshalIndent := @json_MarshalIndent P;
  Request := @Request P;
  Response := @Response P;
  http_NewRequest := @http_NewRequest P;
  http_Do := @http_Do P;
  io_ReadAll := @io_ReadAll P;
  html_Parse := @html_Parse P
|}.

(** ** The searches and the fields, in document order

    The declarative reading of the tree matcher and of the field recipes:
    a search is a [find] or a [filter] over the nodes in document order. *)

Module Fields.

Import Strings.

Definition hasTag (tag : string) (n : Node) : bool :=
  isElement n && (Data n =? tag).

(** Element [tag] with an attribute [attrName] whose value contains
    [attrValue]. *)
Definition tagged (tag attrName attrValue : string) (n : Node) : bool :=
  hasTag tag n && attrContains attrName attrValue (Attr n).

(** Element [tag] with an attribute [attrName] whose value is
    [attrValue]. *)
Definition taggedExactly (tag attrName attrValue : string) (n : Node) : bool :=
  hasTag tag n && existsb (fun a => (Key a =? attrName) && (Val a =? attrValue)) (Attr n).

Definition hasId (n : Node) : bool :=
  existsb (fun a => (Key a =? "id") && negb (Val a =? "")) (Attr n).

(** All elements [tag] with a class containing [className] and a
    non-empty id, in document order. *)
Definition allByClass (root : Node) (tag className : string) : list Node :=
  filter (fun n => tagged tag "class" className n && hasId n) (preorder root).

(** The first qualifying node in document order. *)
Definition firstByAttr (root : Node) (tag attrName attrValue : string) : option Node :=
  find (tagged tag attrName attrValue) (preorder root).

Definition firstTextValue (n : Node) : option string :=
  option_map (@Data) (find isText (Children n)).

Definition attrValue (n : Node) (attrName : string) : option string :=
  if isElement n then option_map Val (find (fun a => Key a =? attrName) (Attr n))
  else None.

Definition andThen {A B} (o : option A) (f : A -> option B) : option B :=
  match o with Some a => f a | None => None end.

Definition productURL (item : Node) : option string :=
  andThen (firstByAttr item "a" "class" "s-item__link") (fun l => attrValue l "href").

Definition id (item : Node) : option string :=
  andThen (productURL item) (fun href =>
  andThen (FindStringSubmatch itemIDRegEx href) (fun m => nth_error m 1)).

Definition price (item : Node) : option string :=
  andThen (firstByAttr item "span" "class" "s-item__price") (fun s =>
  andThen (firstTextValue s) (fun text =>
  andThen (FindStringSubmatch priceRegEx text) (fun m => nth_error m 0))).

Definition title (item : Node) : option string :=
  andThen (firstByAttr item "div" "class" "s-item__title") (fun d =>
  andThen (firstByAttr d "span" "role" "heading") firstTextValue).

Definition subtitle (item : Node) : option Node :=
  firstByAttr item "div" "class" "s-item__subtitle".

(** The condition: empty without a subtitle container, else the text of
    its first [SECONDARY_INFO] span; [None] when that span or its text is
    missing. *)
Definition condition (item : Node) : option string :=
  match subtitle item with
  | None => Some ""
  | Some d => andThen (firstByAttr d "span" "class" "SECONDARY_INFO") firstTextValue
  end.

End Fields.

(** ** The two recipes as the specification words them *)

Module AsStated.

(** The id pattern as the specification prints it, [itm/([0-9]+)?]: the
    question mark makes the group optional. *)
Definition itemIDRegEx : regexp :=
  lits "itm/" (Opt (Group 1 (Plus (Chr (Range "0"%char "9"%char))))).

(** The numeric segment that pattern extracts from an href. *)
Definition id (item : Node) : option string :=
  Fields.andThen (Fields.productURL item) (fun href =>
  Fields.andThen (FindStringSubmatch itemIDRegEx href) (fun m => nth_error m 1)).

(** The title through the first span with [role="heading"]. *)
Definition title (item : Node) : option string :=
  Fields.andThen (Fields.firstByAttr item "div" "class" "s-item__title") (fun d =>
  Fields.andThen (find (Fields.taggedExactly "span" "role" "heading") (preorder d))
                 Fields.firstTextValue).

End AsStated.

(** ** A small site to run the crawler on *)

Module Site.

Definition attr (k v : string) : Attribute := mkAttr "" k v.
Definition text (s : string) : Node := mkNode TextNode s [] [].
Definition elem (tag : string) (attrs : list Attribute) (cs : list Node) : Node :=
  mkNode ElementNode tag attrs cs.
Definition document (cs : list Node) : Node := mkNode DocumentNode "" [] cs.

Fixpoint lookup {A} (k : string) (l : list (string * A)) : option A :=
  match l with
  | [] => None
  | (k', v) :: rest => if k =? k' then Some v else lookup k rest
  end.

(** The encoder on strings that need no escaping. *)
Definition marshal (item : ItemInfo) : string :=
  let tab := String (ascii_of_nat 9) EmptyString in
  let quote := String (ascii_of_nat 34) EmptyString in
  let field k v last :=
    tab ++ quote ++ k ++ quote ++ ": " ++ quote ++ v ++ quote
        ++ (if last : bool then "" else ",") ++ Strings.LF in
  "{" ++ Strings.LF
      ++ field "title" (Title item) false
      ++ field "condition" (Condition item) false
      ++ field "price" (Price item) false
      ++ field "product_url" (ProductURL item) true
      ++ "}".

(** A site serves the pages of [pages], keyed by URL; a body is the URL
    it was served from.  [writable] tells whether the file system accepts
    writes; files are kept newest first. *)
Definition platform (pages : list (string * Node)) (writable : bool) : Platform := {|
  FS := list (string * string);
  os_Mkdir := fun path fs =>
    if writable then (fs, None) else (fs, Some ("mkdir " ++ path ++ ": permission denied"));
  os_WriteFile := fun path data fs =>
    if writable then ((path, data) :: fs, None)
    else (fs, Some ("open " ++ path ++ ": permission denied"));
  json_MarshalIndent := marshal;
  Request := string;
  Response := string;
  http_NewRequest := fun url => Ok url;
  http_Do := fun url =>
    match lookup url pages with
    | Some _ => Ok url
    | None => Err ("Get " ++ url ++ ": unsupported protocol scheme")
    end;
  io_ReadAll := fun body => Ok body;
  html_Parse := fun body =>
    match lookup body pages with
    | Some page => Ok page
    | None => Err "no such page"
    end
|}.

(** An item entry with every field. *)
Definition fullItem (href price title condition : string) : Node :=
  elem "li" [attr "class" "s-item s-item__pl-on-bottom"; attr "id" "item1"]
    [ elem "a" [attr "class" "s-item__link"; attr "href" href]
        [ elem "div" [attr "class" "s-item__title"]
            [ elem "span" [attr "role" "heading"] [text title] ] ];
      elem "div" [attr "class" "s-item__subtitle"]
        [ elem "span" [attr "class" "SECONDARY_INFO"] [text condition] ];
      elem "span" [attr "class" "s-item__price"] [text price] ].

(** The same entry without the subtitle container. *)
Definition plainItem (href price title : string) : Node :=
  elem "li" [attr "class" "s-item"; attr "id" "item2"]
    [ elem "a" [attr "class" "s-item__link"; attr "href" href]
        [ elem "div" [attr "class" "s-item__title"]
            [ elem "span" [attr "role" "heading"] [text title] ] ];
      elem "span" [attr "class" "s-item__price"] [text price] ].

(** An entry whose subtitle container has no [SECONDARY_INFO] span. *)
Definition bareSubtitleItem (href price title : string) : Node :=
  elem "li" [attr "class" "s-item"; attr "id" "item3"]
    [ elem "a" [attr "class" "s-item__link"; attr "href" href]
        [ elem "div" [attr "class" "s-item__title"]
            [ elem "span" [attr "role" "heading"] [text title] ] ];
      elem "div" [attr "class" "s-item__subtitle"] [text "Brand New"];
      elem "span" [attr "class" "s-item__price"] [text price] ].

(** An entry without a price. *)
Definition pricelessItem (href title : string) : Node :=
  elem "li" [attr "class" "s-item"; attr "id" "item4"]
    [ elem "a" [attr "class" "s-item__link"; attr "href" href]
        [ elem "div" [attr "class" "s-item__title"]
            [ elem "span" [attr "role" "heading"] [text title] ] ] ].

(** An entry whose title container holds two spans, the first with a role
    that only contains the word. *)
Definition twoHeadingsItem (href price : string) : Node :=
  elem "li" [attr "class" "s-item"; attr "id" "item5"]
    [ elem "a" [attr "class" "s-item__link"; attr "href" href]
        [ elem "div" [attr "class" "s-item__title"]
            [ elem "span" [attr "role" "subheading"] [text "Sponsored"];
              elem "span" [attr "role" "heading"] [text "ThinkPad T480"] ] ];
      elem "span" [attr "class" "s-item__price"] [text price] ].

Definition page (items : list Node) (pagination : list Node) : Node :=
  document [ elem "html" []
               [ elem "head" [] [];
                 elem "body" []
                   [ elem "ul" [attr "class" "srp-results"] items;
                     elem "nav" [] pagination ] ] ].

Definition home : string := "https://www.ebay.com/sch/garlandcomputer/m.html".

(** Sample entries. *)
Definition thinkpad : Node :=
  fullItem "https://www.ebay.com/itm/123456789012?hash=item1"
           "$1,234.56 to $1,500.00" "ThinkPad T480" "Pre-Owned".
Definition dell : Node := plainItem "https://www.ebay.com/itm/222?x" "$12.99" "Dell".
Definition bare : Node := bareSubtitleItem "https://www.ebay.com/itm/333?x" "$12.99" "Dell".
Definition priceless : Node := pricelessItem "https://www.ebay.com/itm/444?x" "Dell".
Definition sponsored : Node := twoHeadingsItem "https://www.ebay.com/itm/555?x" "$5".
Definition noQuery : Node :=
  plainItem "https://www.ebay.com/itm/123456789012" "$12.99" "Dell".

(** An [li] with an empty class attribute and an id. *)
Definition emptyClass : Node := elem "li" [attr "class" ""; attr "id" "x"] [].

(** An [li] with a class but no id. *)
Definition noId : Node := elem "li" [attr "class" "s-item"] [].

(** A next-page anchor with and without its href. *)
Definition nextTo (url : string) : Node :=
  elem "a" [attr "class" "pagination__next icon-link"; attr "href" url] [].
Definition nextNowhere : Node :=
  elem "a" [attr "class" "pagination__next icon-link"] [].

(** Sample pages: one without entries, one whose next-page anchor has no
    href, one with an entry that has no price. *)
Definition emptyPage : Node := page [noId] [nextTo "https://www.ebay.com/sch/page2"].
Definition brokenNext : Node := page [dell] [nextNowhere].
Definition pricelessPage : Node := page [priceless] [].

(** Sample platforms and their initial worlds. *)
Definition offline : Platform := platform [] true.
Definition readOnly : Platform := platform [] false.
Definition serving (p : Node) : Platform := platform [(home, p)] true.
Definition blank (P : Platform) (files : @FS P) : @World P := @mkWorld P [] files [].

End Site.

Unset Implicit Arguments.
Import Strings.

(** * Properties *)

(** ** Strings *)

Section StringFacts.

Lemma prefix_append (p s : string) :
  String.prefix p s = true <-> exists post, s = p ++ post.
Proof.
  revert s; induction p as [|c p IH]; intros s.
  - split; [intros _; exists s; reflexivity | intros _; destruct s; reflexivity].
  - destruct s as [|d s]; simpl.
    + split; [discriminate | intros [post H]; discriminate].
    + destruct (ascii_dec c d) as [->|Hne].
      * rewrite IH. split; intros [post H]; exists post.
        -- now rewrite H.
        -- now inversion H.
      * split; [discriminate | intros [post H]; inversion H; subst; contradiction].
Qed.

(** [Contains] is the substring relation. *)
Lemma Contains_substring (s sub : string) :
  Contains s sub = true <-> exists pre post, s = pre ++ sub ++ post.
Proof.
  induction s as [|c s IH].
  - cbn [Contains]. rewrite orb_false_r, prefix_append. split.
    + intros [post H]. exists "", post. exact H.
    + intros [pre [post H]]. destruct pre; [exists post; exact H | discriminate].
  - cbn [Contains]. rewrite orb_true_iff, prefix_append, IH. split.
    + intros [[post H] | [pre [post H]]].
      * exists "", post. exact H.
      * exists (String c pre), post. simpl. now rewrite H.
    + intros [pre [post H]]. destruct pre as [|d pre].
      * left. exists post. exact H.
      * right. exists pre, post. now inversion H.
Qed.

Lemma Contains_nonempty (s sub : string) :
  sub <> "" -> Contains s sub = true -> (s =? "") = false.
Proof.
  intros Hsub H. apply Contains_substring in H as [pre [post ->]].
  destruct pre; simpl; [|reflexivity].
  destruct sub; [contradiction | reflexivity].
Qed.

End StringFacts.

(** ** Lists in document order *)

Section ListFacts.

Variable A : Type.
Variable p : A -> bool.

Lemma find_app (l1 l2 : list A) :
  find p (l1 ++ l2) = match find p l1 with Some x => Some x | None => find p l2 end.
Proof. induction l1 as [|x l1 IH]; simpl; [reflexivity|]. now destruct (p x). Qed.

Lemma filter_flat_map (B : Type) (f : B -> list A) (l : list B) :
  filter p (flat_map f l) = flat_map (fun x => filter p (f x)) l.
Proof.
  induction l as [|x l IH]; simpl; [reflexivity|].
  now rewrite filter_app, IH.
Qed.

End ListFacts.

(** ** Tree matcher *)

Section TreeMatcherFacts.

Import Fields.

Variables tag className : string.

Let classMatch (a : Attribute) : bool :=
  (Key a =? "class") && Contains (Val a) className.
Let idMatch (a : Attribute) : bool :=
  (Key a =? "id") && negb (Val a =? "").

(** Whatever the substring, the attribute loop reaches the [append] only
    when some class attribute contains the substring and some id attribute
    is not empty. *)
Lemma scanClassId_sound (attrs : list Attribute) (class id : string) :
  scanClassId attrs className class id = true ->
  (negb (class =? "") || existsb classMatch attrs)
  && (negb (id =? "") || existsb idMatch attrs) = true.
Proof.
  revert class id. induction attrs as [|a rest IH]; intros class id; [discriminate|].
  cbn [scanClassId existsb]. fold (classMatch a). fold (idMatch a).
  destruct (classMatch a) eqn:Hc; [|destruct (idMatch a) eqn:Hi]; cbn [orb].
  - intros H. rewrite orb_true_r. cbn [andb].
    destruct (negb (id =? "")) eqn:Hid; [reflexivity|]. cbn [orb].
    rewrite andb_false_r in H. apply IH in H. rewrite Hid in H.
    apply andb_true_iff in H as [_ H]. cbn [orb] in H. rewrite H. apply orb_true_r.
  - rewrite !orb_true_r, andb_true_r.
    destruct (negb (class =? "")) eqn:Hcl; [reflexivity|]. cbn [andb orb].
    intros H. apply IH in H. rewrite Hcl in H.
    apply andb_true_iff in H as [H _]. exact H.
  - destruct (negb (class =? "") && negb (id =? "")) eqn:Hb.
    + intros _. apply andb_true_iff in Hb as [H1 H2]. now rewrite H1, H2.
    + apply IH.
Qed.

(** Once the substring is not empty, it reaches the [append] exactly
    then. *)
Lemma scanClassId_exists (attrs : list Attribute) (class id : string) :
  className <> "" ->
  (class =? "") || (id =? "") = true ->
  scanClassId attrs className class id
  = (negb (class =? "") || existsb classMatch attrs)
    && (negb (id =? "") || existsb idMatch attrs).
Proof.
  intros Hne. revert class id.
  induction attrs as [|a rest IH]; intros class id Hpre.
  - simpl. rewrite !orb_false_r.
    destruct (class =? ""), (id =? ""); simpl in *; congruence.
  - cbn [scanClassId existsb]. unfold classMatch at 1, idMatch at 1.
    destruct ((Key a =? "class") && Contains (Val a) className) eqn:Hc.
    + apply andb_true_iff in Hc as [Hk Hv].
      apply String.eqb_eq in Hk. rewrite Hk. cbn [String.eqb Ascii.eqb Bool.eqb andb].
      rewrite (Contains_nonempty _ _ Hne Hv). cbn [negb andb orb].
      destruct (id =? "") eqn:Hid; cbn [negb andb orb].
      * rewrite IH by (rewrite Hid; apply orb_true_r).
        rewrite (Contains_nonempty _ _ Hne Hv), Hid. cbn [negb orb].
        now rewrite orb_true_r.
      * now rewrite orb_true_r.
    + destruct ((Key a =? "id") && negb (Val a =? "")) eqn:Hi.
      * apply andb_true_iff in Hi as [_ Hv]. rewrite Hv.
        cbn [andb orb]. rewrite !orb_true_r, andb_true_r.
        destruct (class =? "") eqn:Hcl; cbn [negb andb orb]; [|reflexivity].
        rewrite IH by (rewrite Hcl; reflexivity).
        rewrite Hcl, Hv. reflexivity.
      * cbn [orb]. destruct (negb (class =? "") && negb (id =? "")) eqn:Hb.
        -- apply andb_true_iff in Hb as [H1 H2].
           apply negb_true_iff in H1, H2. rewrite H1, H2 in Hpre. discriminate.
        -- now apply IH.
Qed.

Lemma selected_qualifies (n : Node) :
  selected tag className n = true ->
  tagged tag "class" className n && hasId n = true.
Proof.
  unfold selected, tagged, hasTag, hasId, attrContains.
  intros H. apply andb_true_iff in H as [-> H].
  apply scanClassId_sound in H. exact H.
Qed.

Lemma selected_exact (n : Node) :
  className <> "" ->
  selected tag className n = tagged tag "class" className n && hasId n.
Proof.
  intros Hne. unfold selected.
  rewrite scanClassId_exists by (assumption || reflexivity).
  unfold tagged, hasTag, hasId, attrContains. cbn [String.eqb negb orb].
  now rewrite andb_assoc.
Qed.

(** The accumulator grows by the selected nodes of the subtree, in
    document order. *)
Lemma findItemElementsByClass_append (node : Node) (acc : list Node) :
  findItemElementsByClass node tag className (Mk acc)
  = Mk (acc ++ filter (selected tag className) (preorder node)).
Proof.
  revert acc. induction node as [ty d attrs cs IH] using Node_ind. intros acc.
  assert (Hloop : forall acc0,
    (fix children (cs0 : list Node) (itemList : slice Node) {struct cs0} : slice Node :=
       match cs0 with
       | [] => itemList
       | c :: cs' => children cs' (findItemElementsByClass c tag className itemList)
       end) cs (Mk acc0)
    = Mk (acc0 ++ flat_map (fun x => filter (selected tag className) (preorder x)) cs)).
  { induction IH as [|c cs' Hc _ IHcs]; intros acc0.
    - now rewrite app_nil_r.
    - cbn [flat_map]. rewrite Hc, IHcs. now rewrite <- app_assoc. }
  cbn [preorder filter Children]. rewrite filter_flat_map.
  unfold selected at 1. cbn [findItemElementsByClass Attr Children Data].
  destruct (isElement (mkNode ty d attrs cs) && (d =? tag)); cbn [andb].
  - destruct (scanClassId attrs className "" "").
    + unfold append. cbn [elems]. rewrite Hloop. now rewrite <- app_assoc.
    + now rewrite Hloop.
  - now rewrite Hloop.
Qed.

End TreeMatcherFacts.

(** C4, as amended: from an empty, non-nil slice [findItemElementsByClass]
    returns a collection that is never nil and lists, in document
    pre-order, elements [tag] of the tree that have a class attribute
    containing [className] and a non-empty id attribute; when [className]
    is not empty it lists exactly those elements. *)
Theorem findItemElementsByClass_exact (root : Node) (tag className : string) :
  (className <> "" ->
   findItemElementsByClass root tag className (Mk [])
   = Mk (Fields.allByClass root tag className))
  /\ findItemElementsByClass root tag className (Mk [])
     = Mk (filter (selected tag className) (preorder root))
  /\ (forall n, selected tag className n = true ->
                Fields.tagged tag "class" className n && Fields.hasId n = true).
Proof.
  split; [|split].
  - intros Hne. rewrite findItemElementsByClass_append. cbn [app]. f_equal.
    apply filter_ext. intros n. now apply selected_exact.
  - apply findItemElementsByClass_append.
  - apply selected_qualifies.
Qed.

Lemma findItemElementsByClass_exact_witness :
  "s-item" <> "" /\
  findItemElementsByClass (Site.page [Site.dell; Site.noId] []) "li" "s-item" (Mk [])
  = Mk [Site.dell].
Proof.
  split; [discriminate|].
  rewrite (proj1 (findItemElementsByClass_exact
                    (Site.page [Site.dell; Site.noId] []) "li" "s-item"));
    [reflexivity | discriminate].
Defined.

(** C4, as stated, fails for the empty substring: an [li] whose class
    attribute is empty contains the empty substring and has an id, yet it is
    not returned. *)
Lemma findItemElementsByClass_empty_className :
  Fields.allByClass Site.emptyClass "li" "" = [Site.emptyClass] /\
  findItemElementsByClass Site.emptyClass "li" "" (Mk []) = Mk [].
Proof. split; reflexivity. Qed.

Section FirstMatch.

Import Fields.

Variables tag attrName attrValue : string.

Lemma leafy_children (ty : NodeType) (d : string) (attrs : list Attribute)
      (c : Node) (cs : list Node) :
  leafy (mkNode ty d attrs (c :: cs)) = true ->
  (isElement c = true \/ Children c = []) /\ leafy c = true
  /\ leafy (mkNode ty d attrs cs) = true.
Proof.
  cbn [leafy Children forallb]. rewrite !andb_true_iff, orb_true_iff.
  intros [[H1 H2] H3]. repeat split; try assumption.
  destruct H1 as [H1|H1]; [now left | right].
  now destruct (Children c).
Qed.

(** On a parsed tree the search returns the first qualifying node of the
    document. *)
Lemma findFirstElementByAttr_find (root : Node) :
  leafy root = true ->
  findFirstElementByAttr root tag attrName attrValue
  = firstByAttr root tag attrName attrValue.
Proof.
  unfold firstByAttr.
  induction root as [ty d attrs cs IH] using Node_ind. intros Hleafy.
  cbn [findFirstElementByAttr preorder find Children Attr Data].
  unfold tagged at 1, hasTag. cbn [Data Attr].
  destruct (isElement (mkNode ty d attrs cs) && (d =? tag)
            && attrContains attrName attrValue attrs); [reflexivity|].
  clear -IH Hleafy. induction IH as [|c cs' Hc _ IHcs].
  - reflexivity.
  - apply leafy_children in Hleafy as [Hkind [Hc' Hrest]].
    cbn [flat_map]. rewrite find_app, <- (IHcs Hrest).
    destruct (isElement c) eqn:He.
    + now rewrite (Hc Hc').
    + destruct Hkind as [Hk|Hk]; [discriminate|].
      destruct c as [ty' d' attrs' cs0]. cbn [Children] in Hk. subst cs0.
      cbn [preorder flat_map Children find].
      unfold tagged, hasTag. rewrite He. reflexivity.
Qed.

(** Whatever the tree, a node the search returns qualifies and lies in
    the tree. *)
Lemma findFirstElementByAttr_sound (root n : Node) :
  findFirstElementByAttr root tag attrName attrValue = Some n ->
  In n (preorder root) /\ tagged tag attrName attrValue n = true.
Proof.
  revert n. induction root as [ty d attrs cs IH] using Node_ind. intros n.
  cbn [findFirstElementByAttr preorder Children Attr Data].
  destruct (isElement (mkNode ty d attrs cs) && (d =? tag)
            && attrContains attrName attrValue attrs) eqn:Hq.
  - intros [= <-]. split; [now left | exact Hq].
  - clear Hq. intros H.
    enough (In n (flat_map preorder cs) /\ tagged tag attrName attrValue n = true)
      as [H1 H2] by (split; [now right | exact H2]).
    revert H. induction IH as [|c cs' Hc _ IHcs]; [discriminate|].
    cbn [flat_map]. intros H.
    destruct (isElement c);
      [destruct (findFirstElementByAttr c tag attrName attrValue) as [m|] eqn:Hm|].
    + injection H as <-. destruct (Hc m eq_refl) as [H1 H2].
      split; [apply in_or_app; now left | exact H2].
    + destruct (IHcs H) as [H1 H2]. split; [apply in_or_app; now right | exact H2].
    + destruct (IHcs H) as [H1 H2]. split; [apply in_or_app; now right | exact H2].
Qed.

(** Whatever the tree, the search is absent when no node qualifies. *)
Lemma findFirstElementByAttr_absent (root : Node) :
  (forall n, In n (preorder root) -> tagged tag attrName attrValue n = false) ->
  findFirstElementByAttr root tag attrName attrValue = None.
Proof.
  intros Hnone.
  destruct (findFirstElementByAttr root tag attrName attrValue) as [n|] eqn:H;
    [|reflexivity].
  apply findFirstElementByAttr_sound in H as [Hin Hq].
  rewrite (Hnone n Hin) in Hq. discriminate.
Qed.

Lemma leafy_preorder (root n : Node) :
  leafy root = true -> In n (preorder root) -> leafy n = true.
Proof.
  revert n. induction root as [ty d attrs cs IH] using Node_ind. intros n Hl.
  cbn [preorder Children]. intros [<-|Hin]; [exact Hl|].
  revert Hl Hin. induction IH as [|c cs' Hc _ IHcs]; [intros _ []|].
  intros Hl. apply leafy_children in Hl as [_ [Hc' Hrest]].
  cbn [flat_map]. intros Hin. apply in_app_or in Hin as [Hin|Hin].
  - now apply Hc.
  - now apply IHcs.
Qed.

(** A node found in a parsed tree roots a parsed tree. *)
Lemma firstByAttr_leafy (root n : Node) :
  leafy root = true ->
  firstByAttr root tag attrName attrValue = Some n -> leafy n = true.
Proof.
  intros Hl H. apply find_some in H as [Hin _]. exact (leafy_preorder _ _ Hl Hin).
Qed.

End FirstMatch.

(** C8: on a markup tree, [findFirstElementByAttr] returns the first node in
    depth-first pre-order that is an element [tag] with an attribute
    [attrName] whose value contains [attrValue], the root included; when no
    node of the tree qualifies it returns the absent value. *)
Theorem findFirstElementByAttr_first_in_document
        (root : Node) (tag attrName attrValue : string) :
  leafy root = true ->
  findFirstElementByAttr root tag attrName attrValue
  = find (Fields.tagged tag attrName attrValue) (preorder root)
  /\ ((forall n, In n (preorder root) -> Fields.tagged tag attrName attrValue n = false) ->
      findFirstElementByAttr root tag attrName attrValue = None).
Proof.
  intros Hl. split.
  - now apply findFirstElementByAttr_find.
  - apply findFirstElementByAttr_absent.
Qed.

Lemma findFirstElementByAttr_first_in_document_witness :
  leafy Site.sponsored = true /\
  findFirstElementByAttr Site.sponsored "span" "role" "heading"
  = Some (Site.elem "span" [Site.attr "role" "subheading"] [Site.text "Sponsored"]) /\
  findFirstElementByAttr Site.sponsored "span" "class" "SECONDARY_INFO" = None.
Proof.
  split; [reflexivity|]. split.
  - rewrite (proj1 (findFirstElementByAttr_first_in_document
                      Site.sponsored "span" "role" "heading" eq_refl)).
    reflexivity.
  - apply (proj2 (findFirstElementByAttr_first_in_document
                    Site.sponsored "span" "class" "SECONDARY_INFO" eq_refl)).
    apply find_none. reflexivity.
Defined.

(** ** Readers *)

Section ReaderFacts.

Import Fields.

Lemma getElementNodeVal_firstTextValue (n : Node) :
  getElementNodeVal n
  = match firstTextValue n with
    | Some s => Ok s
    | None => Err "ERROR::No text node found"
    end.
Proof.
  unfold getElementNodeVal, firstTextValue. now destruct (find isText (Children n)).
Qed.

Lemma getElementAttrByName_attrValue (n : Node) (attrName : string) :
  match attrValue n attrName with
  | Some v => getElementAttrByName n attrName = Ok v
  | None => exists err, String.prefix "ERROR::" err = true
                        /\ getElementAttrByName n attrName = Err err
  end.
Proof.
  unfold getElementAttrByName, attrValue. destruct (isElement n).
  - destruct (find (fun a => Key a =? attrName) (Attr n)); cbn [option_map].
    + reflexivity.
    + eexists. split; [|reflexivity]. reflexivity.
  - eexists. split; [|reflexivity]. reflexivity.
Qed.

End ReaderFacts.

(** ** The regular expression engine *)

Section RegexpFacts.

Variable A : Type.
Variable P : A -> Prop.

(** A result of the search is a result of its continuation. *)
Lemma exec_continuation (r : regexp) :
  forall (s : string) (caps : captures) (k : string -> captures -> option A),
    (forall s' caps' x, k s' caps' = Some x -> P x) ->
    forall x, exec r s caps k = Some x -> P x.
Proof.
  induction r as [cs|r1 IH1 r2 IH2|r IH|r IH|i r IH]; intros s caps k Hk x; cbn [exec].
  - destruct s as [|c s]; [discriminate|].
    destruct (accepts cs c); [apply Hk | discriminate].
  - apply IH1. intros s' caps' y. apply IH2. exact Hk.
  - generalize (String.length s). intros n. revert s caps x.
    induction n as [|n IHn]; intros s caps x; [apply Hk|].
    destruct (exec r s caps _) as [y|] eqn:Hy.
    + intros [= <-]. revert Hy. apply IH. intros s' caps' z.
      destruct (String.length s' <? String.length s)%nat; [apply IHn | discriminate].
    + apply Hk.
  - destruct (exec r s caps k) as [y|] eqn:Hy.
    + intros [= <-]. revert Hy. apply IH. exact Hk.
    + apply Hk.
  - apply IH. intros s' caps' y. apply Hk.
Qed.

End RegexpFacts.

(** A match has its whole text first, then one entry per group. *)
Lemma matchHere_length (re : regexp) (s : string) (m : list string) :
  matchHere re s = Some m -> length m = S (groups re).
Proof.
  unfold matchHere.
  apply (exec_continuation _ (fun m => length m = S (groups re))).
  intros s' caps' x [= <-]. cbn [length]. now rewrite length_map, length_seq.
Qed.

Lemma FindStringSubmatch_length (re : regexp) (s : string) (m : list string) :
  FindStringSubmatch re s = Some m -> length m = S (groups re).
Proof.
  induction s as [|c s IH]; cbn [FindStringSubmatch];
    destruct (matchHere re _) as [m'|] eqn:Hm; try discriminate; try exact IH;
    intros [= <-]; exact (matchHere_length _ _ _ Hm).
Qed.

(** ** The item pipeline *)

Section PipelineFacts.

Context {platform : Platform}.
Import Fields.

Lemma bind_assoc (A B C : Type) (m : M A) (f : A -> M B) (g : B -> M C) (w : World) :
  bind (bind m f) g w = bind m (fun x => bind (f x) g) w.
Proof. unfold bind. now destruct (m w) as [[a|e] w']. Qed.

(** Every run of the pipeline either returns an error and leaves the
    world as it was, one of the fields being absent, or finds all five
    fields and writes them. *)
Lemma processItemNode_cases (item : Node) (w : World) :
  leafy item = true ->
  (exists err, String.prefix "ERROR::" err = true
               /\ processItemNode item w = (Err err, w)
               /\ (id item = None \/ price item = None \/ title item = None
                   \/ condition item = None))
  \/ (exists i u p t c,
        id item = Some i /\ productURL item = Some u /\ price item = Some p
        /\ title item = Some t /\ condition item = Some c
        /\ processItemNode item w
           = (Ok tt, persisted item i (mkItemInfo t c p u) w)).
Proof.
  intros Hl. unfold processItemNode, persisted.
  unfold id, productURL, price, title, condition, subtitle.
  rewrite !(findFirstElementByAttr_find _ _ _ item Hl).
  (* the link and its href *)
  destruct (firstByAttr item "a" "class" "s-item__link") as [link|] eqn:Hlink;
    cbn [bind orReturn ret fail andThen];
    [|left; eexists; repeat split; [reflexivity | now left]].
  pose proof (getElementAttrByName_attrValue link "href") as Hhref.
  destruct (attrValue link "href") as [u|] eqn:Hu; cbn [andThen].
  2:{ destruct Hhref as [e [_ ->]]. cbn [bind orWrap fail]. left.
      exists ("ERROR::" ++ e). repeat split; [|now left].
      apply prefix_append. now exists e. }
  rewrite Hhref. cbn [bind orWrap ret].
  (* the id *)
  destruct (FindStringSubmatch itemIDRegEx u) as [m|] eqn:Hm;
    cbn [bind orReturn ret fail andThen];
    [|left; eexists; repeat split; [reflexivity | now left]].
  destruct (nth_error m 1) as [i|] eqn:Hi.
  2:{ apply nth_error_None in Hi.
      replace (length m <? 2)%nat with true by (symmetry; apply Nat.ltb_lt; lia).
      cbn [bind fail]. left; eexists; repeat split; [reflexivity | now left]. }
  assert (Hlen : (length m <? 2)%nat = false).
  { apply Nat.ltb_ge. assert (1 < length m)%nat; [|lia].
    apply nth_error_Some. congruence. }
  rewrite Hlen. cbn [bind ret]. rewrite (nth_error_nth m 1 "" Hi).
  (* the price *)
  destruct (firstByAttr item "span" "class" "s-item__price") as [priceNode|] eqn:Hp;
    cbn [bind orReturn ret fail andThen];
    [|left; eexists; repeat split; [reflexivity | right; now left]].
  rewrite getElementNodeVal_firstTextValue.
  destruct (firstTextValue priceNode) as [text|] eqn:Htext;
    cbn [bind orWrap ret fail andThen];
    [|left; eexists; repeat split; [reflexivity | right; now left]].
  destruct (FindStringSubmatch priceRegEx text) as [m2|] eqn:Hm2;
    cbn [bind orReturn ret fail andThen];
    [|left; eexists; repeat split; [reflexivity | right; now left]].
  pose proof (FindStringSubmatch_length _ _ _ Hm2) as Hlen2.
  destruct m2 as [|p m2]; [discriminate|]. cbn [nth nth_error].
  (* the title *)
  destruct (firstByAttr item "div" "class" "s-item__title") as [titleDiv|] eqn:Ht;
    cbn [bind orReturn ret fail andThen];
    [|left; eexists; repeat split; [reflexivity | right; right; now left]].
  rewrite (findFirstElementByAttr_find _ _ _ titleDiv (firstByAttr_leafy _ _ _ _ _ Hl Ht)).
  destruct (firstByAttr titleDiv "span" "role" "heading") as [titleNode|] eqn:Hts;
    cbn [bind orReturn ret fail andThen];
    [|left; eexists; repeat split; [reflexivity | right; right; now left]].
  rewrite getElementNodeVal_firstTextValue.
  destruct (firstTextValue titleNode) as [t|] eqn:Htt;
    cbn [bind orWrap ret fail andThen];
    [|left; eexists; repeat split; [reflexivity | right; right; now left]].
  (* the condition *)
  destruct (firstByAttr item "div" "class" "s-item__subtitle") as [sub|] eqn:Hs.
  - rewrite (findFirstElementByAttr_find _ _ _ sub (firstByAttr_leafy _ _ _ _ _ Hl Hs)).
    rewrite !bind_assoc.
    destruct (firstByAttr sub "span" "class" "SECONDARY_INFO") as [condNode|] eqn:Hc;
      cbn [bind orReturn ret fail andThen];
      [|left; eexists; repeat split; [reflexivity | right; right; now right]].
    rewrite getElementNodeVal_firstTextValue.
    destruct (firstTextValue condNode) as [c|] eqn:Hcc;
      cbn [bind orWrap ret fail andThen];
      [|left; eexists; repeat split; [reflexivity | right; right; now right]].
    right. exists i, u, p, t, c. repeat split.
    unfold bind, WriteFile, ret. now destruct (os_WriteFile _ _ _).
  - right. exists i, u, p, t, "". repeat split.
    unfold bind, WriteFile, Print, ret. cbn [snd fs stdout requests].
    now destruct (os_WriteFile _ _ _).
Qed.

End PipelineFacts.

(** ** What the two patterns find *)

Section TokenFacts.

Import Tokens.

Lemma append_assoc (a b c : string) : (a ++ b) ++ c = a ++ b ++ c.
Proof. induction a as [|x a IH]; simpl; [reflexivity | now rewrite IH]. Qed.

Lemma length_append (a b : string) :
  String.length (a ++ b) = String.length a + String.length b.
Proof. induction a as [|x a IH]; simpl; [reflexivity | now rewrite IH]. Qed.

Lemma take_append (a b : string) : take (String.length a) (a ++ b) = a.
Proof.
  unfold take. induction a as [|x a IH]; simpl.
  - now destruct b.
  - now rewrite IH.
Qed.

(** What a match consumed is what stands before the rest. *)
Lemma consumed_append (a b : string) : consumed (a ++ b) b = a.
Proof.
  unfold consumed. rewrite length_append.
  replace (String.length a + String.length b - String.length b)
    with (String.length a) by lia.
  apply take_append.
Qed.

Lemma takeWhile_dropWhile (p : ascii -> bool) (s : string) :
  takeWhile p s ++ dropWhile p s = s.
Proof.
  induction s as [|c s IH]; simpl; [reflexivity|].
  destruct (p c); simpl; [now rewrite IH | reflexivity].
Qed.

Lemma dropWhile_ext (p q : ascii -> bool) (s : string) :
  (forall c, p c = q c) -> dropWhile p s = dropWhile q s.
Proof.
  intros H. induction s as [|c s IH]; simpl; [reflexivity|].
  rewrite H, IH. reflexivity.
Qed.

Lemma all_takeWhile (p : ascii -> bool) (s : string) : all p (takeWhile p s) = true.
Proof.
  induction s as [|c s IH]; simpl; [reflexivity|].
  destruct (p c) eqn:H; simpl; [now rewrite H | reflexivity].
Qed.

(** A run of [p] followed by a character outside [p]. *)
Lemma dropWhile_run (p : ascii -> bool) (d : string) (c : ascii) (rest : string) :
  all p d = true -> p c = false -> dropWhile p (d ++ String c rest) = String c rest.
Proof.
  intros Hd Hc. induction d as [|x d IH]; simpl in *.
  - now rewrite Hc.
  - apply andb_true_iff in Hd as [Hx Hd]. rewrite Hx. now apply IH.
Qed.

End TokenFacts.

Section StarFacts.

Import Tokens.

Variable A : Type.
Variable cs : charset.

(** A greedy run over one class, when giving a character back cannot
    help: the continuation sees the input after the longest run. *)
Lemma exec_star_chars (s : string) (caps : captures)
      (k : string -> captures -> option A) :
  (forall c s', accepts cs c = true ->
                k (dropWhile (accepts cs) s') caps = None ->
                k (String c s') caps = None) ->
  exec (Star (Chr cs)) s caps k = k (dropWhile (accepts cs) s) caps.
Proof.
  intros Hk. cbn [exec].
  match goal with
  | |- ?loop (String.length s) s caps = _ =>
      enough (Hloop : forall n s0, String.length s0 <= n ->
                loop n s0 caps = k (dropWhile (accepts cs) s0) caps)
        by (apply Hloop; lia)
  end.
  induction n as [|n IH]; intros s0 Hlen.
  - destruct s0; [reflexivity | simpl in Hlen; lia].
  - destruct s0 as [|c s']; [reflexivity|].
    cbn [dropWhile]. destruct (accepts cs c) eqn:Hc; [|reflexivity].
    replace (String.length s' <? String.length (String c s'))%nat with true
      by (symmetry; apply Nat.ltb_lt; simpl; lia).
    rewrite IH by (simpl in Hlen; lia).
    destruct (k (dropWhile (accepts cs) s') caps) eqn:Hr; [reflexivity|].
    now apply Hk.
Qed.

(** In particular when the continuation never refuses. *)
Lemma exec_star_chars_total (s : string) (caps : captures)
      (k : string -> captures -> option A) :
  (forall s', k s' caps <> None) ->
  exec (Star (Chr cs)) s caps k = k (dropWhile (accepts cs) s) caps.
Proof.
  intros Hk. apply exec_star_chars. intros c s' _ H. now apply Hk in H.
Qed.

Lemma exec_lits_append (p : string) (r : regexp) (s : string) (caps : captures)
      (k : string -> captures -> option A) :
  exec (lits p r) (p ++ s) caps k = exec r s caps k.
Proof.
  induction p as [|c p IH]; [reflexivity|].
  cbn [lits exec String.append accepts]. rewrite Ascii.eqb_refl. exact IH.
Qed.

Lemma exec_lits_some (p : string) (r : regexp) (s : string) (caps : captures)
      (k : string -> captures -> option A) (x : A) :
  exec (lits p r) s caps k = Some x -> exists s1, s = p ++ s1.
Proof.
  revert s. induction p as [|c p IH]; intros s; [now exists s|].
  cbn [lits exec accepts]. destruct s as [|c' s]; [discriminate|].
  destruct (Ascii.eqb c c') eqn:Hc; [|discriminate].
  apply Ascii.eqb_eq in Hc as <-. intros H. apply IH in H as [s1 ->].
  now exists s1.
Qed.

End StarFacts.

Section PatternFacts.

Import Tokens.

Lemma exec_cat (A : Type) (r1 r2 : regexp) (s : string) (caps : captures)
      (k : string -> captures -> option A) :
  exec (Cat r1 r2) s caps k = exec r1 s caps (fun s' caps' => exec r2 s' caps' k).
Proof. reflexivity. Qed.

Lemma accepts_separator (c : ascii) :
  accepts (OneOf ["."%char; ","%char]) c = isSeparator c.
Proof. unfold isSeparator. cbn [accepts existsb]. now rewrite orb_false_r. Qed.

Lemma accepts_digit_range (c : ascii) : accepts (Range "0"%char "9"%char) c = isDigit c.
Proof. reflexivity. Qed.

(** At the head of a string, [priceRegEx] needs a digit and then takes
    the digits, the separators and the digits that follow. *)
Lemma matchHere_priceRegEx (s : string) :
  matchHere priceRegEx s
  = match s with
    | EmptyString => None
    | String c s1 =>
        if isDigit c then
          let r1 := dropWhile isDigit s1 in
          let r2 := dropWhile isSeparator r1 in
          Some [String c (takeWhile isDigit s1) ++ takeWhile isSeparator r1
                  ++ takeWhile isDigit r2]
        else None
    end.
Proof.
  destruct s as [|c s1]; [reflexivity|].
  change (matchHere priceRegEx (String c s1))
    with (if isDigit c
          then exec (Star (Chr Digit)) s1 []
                 (fun s' caps' =>
                    exec (Cat (Star (Chr (OneOf ["."%char; ","%char]))) (Star (Chr Digit)))
                      s' caps' (fun rest _ => Some [consumed (String c s1) rest]))
          else None).
  destruct (isDigit c); [|reflexivity].
  assert (H3 : forall x, exec (Star (Chr Digit)) x []
                 (fun rest _ => Some [consumed (String c s1) rest])
               = Some [consumed (String c s1) (dropWhile isDigit x)]).
  { intros x. now rewrite exec_star_chars_total by discriminate. }
  assert (H2 : forall x, exec (Star (Chr (OneOf ["."%char; ","%char]))) x []
                 (fun s' caps' => exec (Star (Chr Digit)) s' caps'
                    (fun rest _ => Some [consumed (String c s1) rest]))
               = Some [consumed (String c s1)
                         (dropWhile isDigit (dropWhile isSeparator x))]).
  { intros x. rewrite exec_star_chars_total by (intros s'; rewrite H3; discriminate).
    rewrite H3. now rewrite (dropWhile_ext _ _ x accepts_separator). }
  rewrite exec_star_chars_total by (intros s'; rewrite exec_cat, H2; discriminate).
  rewrite exec_cat, H2. change (accepts Digit) with isDigit. cbv zeta.
  set (r1 := dropWhile isDigit s1). set (r2 := dropWhile isSeparator r1).
  assert (Hs : String c s1
               = (String c (takeWhile isDigit s1) ++ takeWhile isSeparator r1
                    ++ takeWhile isDigit r2) ++ dropWhile isDigit r2).
  { cbn [String.append]. f_equal.
    rewrite !append_assoc, (takeWhile_dropWhile isDigit r2).
    subst r2. rewrite (takeWhile_dropWhile isSeparator r1).
    subst r1. now rewrite takeWhile_dropWhile. }
  rewrite Hs at 1. now rewrite consumed_append.
Qed.

(** What [priceRegEx] finds is the first price token. *)
Lemma FindStringSubmatch_priceRegEx (s : string) :
  FindStringSubmatch priceRegEx s = option_map (fun t => [t]) (priceToken s).
Proof.
  induction s as [|c s IH]; [reflexivity|].
  cbn [FindStringSubmatch]. rewrite matchHere_priceRegEx.
  unfold priceToken. cbn [dropWhile].
  destruct (isDigit c) eqn:Hc; cbn [negb].
  - cbn [takeWhile dropWhile]. rewrite Hc. reflexivity.
  - exact IH.
Qed.

(** At the head of a string, the part of [itemIDRegEx] after [itm/]. *)
Lemma exec_itemID_tail (A : Type) (s1 : string) (k : string -> captures -> option A) :
  exec (Cat (Group 1 (Plus (Chr (Range "0"%char "9"%char)))) (Chr (Lit "?"%char))) s1 [] k
  = match s1 with
    | EmptyString => None
    | String c s2 =>
        if isDigit c then
          match dropWhile isDigit s2 with
          | String q rest =>
              if Ascii.eqb "?"%char q
              then k rest [(1, consumed s1 (String q rest))] else None
          | EmptyString => None
          end
        else None
    end.
Proof.
  destruct s1 as [|c s2]; [reflexivity|].
  change (exec (Cat (Group 1 (Plus (Chr (Range "0"%char "9"%char)))) (Chr (Lit "?"%char)))
            (String c s2) [] k)
    with (if isDigit c
          then exec (Star (Chr (Range "0"%char "9"%char))) s2 []
                 (fun s' caps' =>
                    exec (Chr (Lit "?"%char)) s' ((1, consumed (String c s2) s') :: caps') k)
          else None).
  destruct (isDigit c); [|reflexivity].
  change (exec (Star (Chr (Range "0"%char "9"%char))) s2 []
            (fun s' caps' =>
               exec (Chr (Lit "?"%char)) s' ((1, consumed (String c s2) s') :: caps') k)
          = match dropWhile isDigit s2 with
            | String q rest =>
                if Ascii.eqb "?"%char q
                then k rest [(1, consumed (String c s2) (String q rest))] else None
            | EmptyString => None
            end).
  rewrite exec_star_chars.
  - rewrite (dropWhile_ext _ _ s2 accepts_digit_range).
    now destruct (dropWhile isDigit s2).
  - intros c' s' Hc' _. cbn [exec accepts].
    rewrite accepts_digit_range in Hc'.
    destruct (Ascii.eqb "?"%char c') eqn:Hq; [|reflexivity].
    apply Ascii.eqb_eq in Hq as <-. discriminate.
Qed.

Lemma matchHere_itemIDRegEx_some (s : string) (m : list string) :
  matchHere itemIDRegEx s = Some m ->
  exists d rest, d <> "" /\ all isDigit d = true
                 /\ s = "itm/" ++ d ++ "?" ++ rest
                 /\ m = ["itm/" ++ d ++ "?"; d].
Proof.
  unfold matchHere, itemIDRegEx. intros H.
  destruct (exec_lits_some _ _ _ _ _ _ _ H) as [s1 ->].
  rewrite exec_lits_append, exec_itemID_tail in H.
  destruct s1 as [|c s2]; [discriminate|].
  destruct (isDigit c) eqn:Hc; [|discriminate].
  destruct (dropWhile isDigit s2) as [|q rest] eqn:Hd; [discriminate|].
  destruct (Ascii.eqb "?"%char q) eqn:Hq; [|discriminate].
  apply Ascii.eqb_eq in Hq as <-. injection H as <-.
  assert (Hs2 : s2 = takeWhile isDigit s2 ++ "?" ++ rest).
  { rewrite <- (takeWhile_dropWhile isDigit s2) at 1. now rewrite Hd. }
  pose proof (all_takeWhile isDigit s2) as Hall. clear Hd.
  revert Hs2 Hall. generalize (takeWhile isDigit s2) as d'. intros d' -> Hall.
  exists (String c d'), rest. repeat split.
  - discriminate.
  - cbn [all]. now rewrite Hc, Hall.
  - cbn [groups lits Plus Nat.add seq map capture Nat.eqb]. f_equal; [|f_equal].
    + rewrite <- (consumed_append ("itm/" ++ String c d' ++ "?") rest).
      f_equal. simpl. now rewrite append_assoc.
    + change (String c (d' ++ "?" ++ rest)) with (String c d' ++ String "?"%char rest).
      apply consumed_append.
Qed.

Lemma matchHere_itemIDRegEx_match (d rest : string) :
  d <> "" -> all isDigit d = true ->
  matchHere itemIDRegEx ("itm/" ++ d ++ "?" ++ rest) = Some ["itm/" ++ d ++ "?"; d].
Proof.
  intros Hne Hall. unfold matchHere, itemIDRegEx.
  rewrite exec_lits_append, exec_itemID_tail.
  destruct d as [|c d']; [contradiction|]. cbn [all] in Hall.
  apply andb_true_iff in Hall as [Hc Hall].
  change (String c d' ++ "?" ++ rest) with (String c (d' ++ String "?"%char rest)).
  cbv beta iota. rewrite Hc, (dropWhile_run isDigit d' "?"%char rest Hall eq_refl).
  cbn [Ascii.eqb Bool.eqb groups lits Plus Nat.add seq map capture Nat.eqb].
  f_equal. f_equal; [|f_equal].
  - rewrite <- (consumed_append ("itm/" ++ String c d' ++ "?") rest).
    f_equal. simpl. now rewrite append_assoc.
  - change (String c (d' ++ String "?"%char rest))
      with (String c d' ++ String "?"%char rest).
    apply consumed_append.
Qed.

(** The leftmost match starts at some suffix, and no match means no
    suffix matches. *)
Lemma FindStringSubmatch_some (re : regexp) (s : string) (m : list string) :
  FindStringSubmatch re s = Some m ->
  exists pre post, s = pre ++ post /\ matchHere re post = Some m.
Proof.
  induction s as [|c s IH]; cbn [FindStringSubmatch];
    destruct (matchHere re _) as [m'|] eqn:Hm; try discriminate.
  - intros [= <-]. now exists "", "".
  - intros [= <-]. now exists "", (String c s).
  - intros H. destruct (IH H) as [pre [post [-> Hp]]].
    now exists (String c pre), post.
Qed.

Lemma FindStringSubmatch_none (re : regexp) (s : string) :
  FindStringSubmatch re s = None ->
  forall pre post, s = pre ++ post -> matchHere re post = None.
Proof.
  induction s as [|c s IH]; cbn [FindStringSubmatch];
    destruct (matchHere re _) as [m'|] eqn:Hm; try discriminate.
  - intros _ pre post H. destruct pre; [|discriminate]. simpl in H. now subst post.
  - intros H pre post E. destruct pre as [|c' pre].
    + simpl in E. now subst post.
    + injection E as _ E. now apply (IH H pre).
Qed.

(** What [itemIDRegEx] finds in an href: [itm/], digits and a question
    mark in a row, the digits being the captured id. *)
Lemma FindStringSubmatch_itemIDRegEx_some (href : string) (m : list string) :
  FindStringSubmatch itemIDRegEx href = Some m ->
  exists i, m = ["itm/" ++ i ++ "?"; i] /\ holdsItemID href i.
Proof.
  intros H. apply FindStringSubmatch_some in H as [pre [post [-> H]]].
  apply matchHere_itemIDRegEx_some in H as [d [rest [Hne [Hall [-> ->]]]]].
  exists d. split; [reflexivity|].
  split; [exact Hne|]. split; [exact Hall|]. now exists pre, rest.
Qed.

Lemma FindStringSubmatch_itemIDRegEx_none (href : string) :
  FindStringSubmatch itemIDRegEx href = None <-> forall i, ~ holdsItemID href i.
Proof.
  split.
  - intros H i [Hne [Hall [pre [post E]]]].
    pose proof (FindStringSubmatch_none _ _ H pre _ E) as Hm.
    change ("itm/" ++ i ++ "?" ++ post) with ("itm/" ++ (i ++ "?" ++ post)) in Hm.
    rewrite (matchHere_itemIDRegEx_match i post Hne Hall) in Hm. discriminate.
  - intros H. destruct (FindStringSubmatch itemIDRegEx href) as [m|] eqn:Hm;
      [|reflexivity].
    apply FindStringSubmatch_itemIDRegEx_some in Hm as [i [_ Hi]].
    now destruct (H i).
Qed.

End PatternFacts.

(** ** What a computation leaves alone *)

Create HintDb frame discriminated.

Section FrameFacts.

Context {platform : Platform}.

Lemma keepsRequests_ret (A : Type) (a : A) : keepsRequests (ret a).
Proof. intros w. reflexivity. Qed.

Lemma keepsRequests_fail (A : Type) (err : string) : keepsRequests (@fail _ A err).
Proof. intros w. reflexivity. Qed.

Lemma keepsRequests_bind (A B : Type) (m : M A) (f : A -> M B) :
  keepsRequests m -> (forall a, keepsRequests (f a)) -> keepsRequests (bind m f).
Proof.
  intros Hm Hf w. unfold bind. specialize (Hm w).
  destruct (m w) as [[a|err] w']; cbn [snd] in *; [|exact Hm].
  now rewrite Hf.
Qed.

Lemma keepsRequests_orReturn (A : Type) (o : option A) (msg : string) :
  keepsRequests (orReturn o msg).
Proof. destruct o; intros w; reflexivity. Qed.

Lemma keepsRequests_orWrap (A : Type) (r : Result A) (msg : string -> string) :
  keepsRequests (orWrap r msg).
Proof. destruct r; intros w; reflexivity. Qed.

Lemma keepsRequests_Print (s : string) : keepsRequests (Print s).
Proof. intros w. reflexivity. Qed.

Lemma keepsRequests_WriteFile (path data : string) : keepsRequests (WriteFile path data).
Proof. intros w. unfold WriteFile. now destruct (os_WriteFile path data (fs w)). Qed.

Lemma keepsRequests_Mkdir (path : string) : keepsRequests (Mkdir path).
Proof. intros w. unfold Mkdir. now destruct (os_Mkdir path (fs w)). Qed.

Lemma succeeds_Print (s : string) : succeeds (Print s).
Proof. intros w. now exists tt. Qed.

Lemma succeeds_WriteFile (path data : string) : succeeds (WriteFile path data).
Proof.
  intros w. unfold WriteFile. destruct (os_WriteFile path data (fs w)) as [fs' err].
  now exists err.
Qed.

End FrameFacts.

#[local] Hint Resolve keepsRequests_ret keepsRequests_fail keepsRequests_orReturn
  keepsRequests_orWrap keepsRequests_Print keepsRequests_WriteFile keepsRequests_Mkdir
  succeeds_Print succeeds_WriteFile : frame.

Ltac frame_step lemma_bind :=
  first
    [ solve [auto with frame]
    | apply lemma_bind; [| intros ?]
    | match goal with
      | |- context [if ?c then _ else _] => destruct c
      | |- context [match ?x with Some _ => _ | None => _ end] => destruct x
      end ].

Section FrameOfTheRun.

Context {platform : Platform}.

(** A run of the pipeline makes no request. *)
Lemma processItemNode_keepsRequests (item : Node) : keepsRequests (processItemNode item).
Proof. unfold processItemNode. repeat frame_step keepsRequests_bind. Qed.

Lemma dispatch_requests (items : list Node) (w : World) :
  requests (dispatch items w) = requests w.
Proof.
  unfold dispatch. revert w. induction items as [|item rest IH]; intros w; [reflexivity|].
  cbn [fold_left]. rewrite IH. apply processItemNode_keepsRequests.
Qed.

Lemma processed_requests (items : slice Node) (w : World) :
  requests (processed items w) = requests w.
Proof.
  unfold processed. rewrite dispatch_requests, keepsRequests_Mkdir.
  apply keepsRequests_Print.
Qed.

End FrameOfTheRun.

Section SameResult.

Context {P1 P2 : Platform}.

Lemma sameResult_ret (A : Type) (a : A) : sameResult (@ret P1 A a) (@ret P2 A a).
Proof. intros w1 w2. reflexivity. Qed.

Lemma sameResult_fail (A : Type) (err : string) :
  sameResult (@fail P1 A err) (@fail P2 A err).
Proof. intros w1 w2. reflexivity. Qed.

Lemma sameResult_orReturn (A : Type) (o : option A) (msg : string) :
  sameResult (@orReturn P1 A o msg) (@orReturn P2 A o msg).
Proof. destruct o; intros w1 w2; reflexivity. Qed.

Lemma sameResult_orWrap (A : Type) (r : Result A) (msg : string -> string) :
  sameResult (@orWrap P1 A r msg) (@orWrap P2 A r msg).
Proof. destruct r; intros w1 w2; reflexivity. Qed.

Lemma sameResult_bind (A B : Type) (m1 : @M P1 A) (m2 : @M P2 A)
      (f1 : A -> @M P1 B) (f2 : A -> @M P2 B) :
  sameResult m1 m2 -> (forall a, sameResult (f1 a) (f2 a)) ->
  sameResult (bind m1 f1) (bind m2 f2).
Proof.
  intros Hm Hf w1 w2. unfold bind. specialize (Hm w1 w2).
  destruct (m1 w1) as [[a1|e1] w1'], (m2 w2) as [[a2|e2] w2']; cbn [fst] in *;
    try discriminate.
  - injection Hm as <-. apply Hf.
  - now injection Hm as <-.
Qed.

(** When the value of a step is dropped, only its success matters: this
    is how the error of a write is lost. *)
Lemma sameResult_bind_dropped (A1 A2 B : Type) (m1 : @M P1 A1) (m2 : @M P2 A2)
      (k1 : @M P1 B) (k2 : @M P2 B) :
  succeeds m1 -> succeeds m2 -> sameResult k1 k2 ->
  sameResult (bind m1 (fun _ => k1)) (bind m2 (fun _ => k2)).
Proof.
  intros H1 H2 Hk w1 w2. unfold bind.
  destruct (H1 w1) as [a1 E1], (H2 w2) as [a2 E2].
  destruct (m1 w1) as [r1 w1'], (m2 w2) as [r2 w2']; cbn [fst] in *. subst r1 r2.
  apply Hk.
Qed.

End SameResult.

#[local] Hint Resolve sameResult_ret sameResult_fail sameResult_orReturn
  sameResult_orWrap : frame.

Section SameRun.

Context {P1 P2 : Platform}.

(** The error a run returns is the same on every platform. *)
Lemma processItemNode_sameResult (item : Node) :
  sameResult (@processItemNode P1 item) (@processItemNode P2 item).
Proof.
  unfold processItemNode.
  repeat first
    [ solve [auto with frame]
    | apply sameResult_bind_dropped; [solve [auto with frame] | solve [auto with frame] |]
    | apply sameResult_bind; [| intros ?]
    | match goal with
      | |- context [if ?c then _ else _] => destruct c
      | |- context [match ?x with Some _ => _ | None => _ end] => destruct x
      end ].
Qed.

End SameRun.

(** ** Runs of the item pipeline *)

Section RunFacts.

Context {platform : Platform}.
Import Fields.

Lemma productURL_id (item : Node) : productURL item = None -> id item = None.
Proof. unfold id. now intros ->. Qed.

(** A run fails when a field is absent, and then changes nothing. *)
Lemma processItemNode_fails (item : Node) (w : World) :
  leafy item = true ->
  id item = None \/ price item = None \/ title item = None \/ condition item = None ->
  exists err, String.prefix "ERROR::" err = true
              /\ processItemNode item w = (Err err, w).
Proof.
  intros Hl Hmiss.
  destruct (processItemNode_cases item w Hl)
    as [[err [Hp [Hrun _]]] | [i [u [p [t [c [Hi [_ [Hp [Ht [Hc _]]]]]]]]]]].
  - now exists err.
  - destruct Hmiss as [H|[H|[H|H]]]; congruence.
Qed.

(** A run that returns [nil] found every field and wrote them. *)
Lemma processItemNode_ok (item : Node) (w w' : World) :
  leafy item = true ->
  processItemNode item w = (Ok tt, w') ->
  exists i u p t c,
    id item = Some i /\ productURL item = Some u /\ price item = Some p
    /\ title item = Some t /\ condition item = Some c
    /\ w' = persisted item i (mkItemInfo t c p u) w.
Proof.
  intros Hl Hrun.
  destruct (processItemNode_cases item w Hl)
    as [[err [_ [Hfail _]]] | [i [u [p [t [c [Hi [Hu [Hp [Ht [Hc Hok]]]]]]]]]]].
  - rewrite Hfail in Hrun. discriminate.
  - rewrite Hok in Hrun. injection Hrun as <-. now exists i, u, p, t, c.
Qed.

(** A run on an item with every field returns [nil] and writes them. *)
Lemma processItemNode_persists (item : Node) (w : World) (i u p t c : string) :
  leafy item = true ->
  id item = Some i -> productURL item = Some u -> price item = Some p ->
  title item = Some t -> condition item = Some c ->
  processItemNode item w = (Ok tt, persisted item i (mkItemInfo t c p u) w).
Proof.
  intros Hl Hi Hu Hp Ht Hc.
  destruct (processItemNode_cases item w Hl)
    as [[err [_ [_ Hmiss]]] | [i' [u' [p' [t' [c' [Hi' [Hu' [Hp' [Ht' [Hc' Hok]]]]]]]]]]].
  - destruct Hmiss as [H|[H|[H|H]]]; congruence.
  - congruence.
Qed.

Lemma dispatch_cons (item : Node) (rest : list Node) (w : World) :
  dispatch (item :: rest) w = dispatch rest (snd (processItemNode item w)).
Proof. reflexivity. Qed.

Lemma dispatch_app (before after : list Node) (w : World) :
  dispatch (before ++ after) w = dispatch after (dispatch before w).
Proof. unfold dispatch. apply fold_left_app. Qed.

(** An item whose run changes nothing may as well be left out. *)
Lemma dispatch_skip (item : Node) (before after : list Node) (w : World) :
  (forall w0, snd (processItemNode item w0) = w0) ->
  dispatch (before ++ item :: after) w = dispatch (before ++ after) w.
Proof.
  intros H. rewrite !dispatch_app, dispatch_cons. now rewrite H.
Qed.

(** How a pass through the loop ends does not depend on the world it
    starts from, hence not on what earlier item runs did to it. *)
Lemma loopBody_control (pageURL : string) (w1 w2 : World) :
  fst (loopBody pageURL w1) = fst (loopBody pageURL w2).
Proof.
  unfold loopBody.
  destruct (getPageHTML pageURL) as [bodyHTML|err]; [|reflexivity].
  destruct (html_Parse bodyHTML) as [pageHTML|err]; [|reflexivity].
  destruct (isNil _); [reflexivity|].
  destruct (len _ =? 0)%nat; [reflexivity|].
  destruct (findFirstElementByAttr pageHTML _ _ _) as [next|]; [|reflexivity].
  now destruct (getElementAttrByName next "href").
Qed.

Lemma loopBody_processed (pageURL bodyHTML : string) (pageHTML : Node) (w : World) :
  getPageHTML pageURL = Ok bodyHTML ->
  html_Parse bodyHTML = Ok pageHTML ->
  len (findItemElementsByClass pageHTML "li" "s-item" (Mk [])) <> 0 ->
  loopBody pageURL w
  = let items := findItemElementsByClass pageHTML "li" "s-item" (Mk []) in
    let w' := processed items (logRequest pageURL w) in
    match findFirstElementByAttr pageHTML "a" "class" "pagination__next icon-link" with
    | Some next =>
        match getElementAttrByName next "href" with
        | Ok href => (Continue href, w')
        | Err err => (Continue "", say ("ERROR::Failed to get next page " ++ err ++ LF) w')
        end
    | None => (Break, w')
    end.
Proof.
  intros Hget Hparse Hlen. unfold loopBody. rewrite Hget, Hparse.
  destruct (findItemElementsByClass pageHTML "li" "s-item" (Mk [])) as [|l] eqn:Hitems;
    [now destruct Hlen|].
  cbn [isNil]. apply Nat.eqb_neq in Hlen. rewrite Hlen. cbv zeta.
  destruct (findFirstElementByAttr pageHTML _ _ _) as [next|]; [|reflexivity].
  now destruct (getElementAttrByName next "href").
Qed.

(** Every pass through the loop makes one request, for its [pageURL]. *)
Lemma loopBody_requests (pageURL : string) (w : World) :
  requests (snd (loopBody pageURL w)) = (requests w ++ [pageURL])%list.
Proof.
  destruct (getPageHTML pageURL) as [bodyHTML|err] eqn:Hget;
    [|unfold loopBody; now rewrite Hget].
  destruct (html_Parse bodyHTML) as [pageHTML|err] eqn:Hparse;
    [|unfold loopBody; now rewrite Hget, Hparse].
  destruct (Nat.eq_dec (len (findItemElementsByClass pageHTML "li" "s-item" (Mk []))) 0)
    as [Hlen|Hlen].
  - unfold loopBody. rewrite Hget, Hparse.
    destruct (isNil _); [reflexivity|]. now rewrite Hlen.
  - rewrite (loopBody_processed pageURL bodyHTML pageHTML w Hget Hparse Hlen). cbv zeta.
    destruct (findFirstElementByAttr pageHTML _ _ _) as [next|];
      [destruct (getElementAttrByName next "href")|];
      cbn [snd say Print requests]; now rewrite processed_requests.
Qed.

End RunFacts.

(** ** The page loop *)

Section LoopProperties.

Context {platform : Platform}.

(** C7: when the search for [li] elements of class [s-item] over the
    parsed page returns no node, the pass prints the failure and the
    process exits with status 1; the only request made is the one for
    this page, and no file is touched. *)
Theorem no_items_is_fatal (pageURL bodyHTML : string) (pageHTML : Node) (w : World) :
  getPageHTML pageURL = Ok bodyHTML ->
  html_Parse bodyHTML = Ok pageHTML ->
  len (findItemElementsByClass pageHTML "li" "s-item" (Mk [])) = 0 ->
  loopBody pageURL w
  = (Exit 1, say ("Failed to get items" ++ LF) (logRequest pageURL w))
  /\ (forall fuel,
        crawl (S fuel) pageURL w
        = Some (1%Z, say ("Failed to get items" ++ LF) (logRequest pageURL w)))
  /\ requests (snd (loopBody pageURL w)) = (requests w ++ [pageURL])%list
  /\ fs (snd (loopBody pageURL w)) = fs w.
Proof.
  intros Hget Hparse Hlen.
  assert (Hbody : loopBody pageURL w
                  = (Exit 1, say ("Failed to get items" ++ LF) (logRequest pageURL w))).
  { unfold loopBody. rewrite Hget, Hparse.
    destruct (isNil _); [reflexivity|]. now rewrite Hlen. }
  split; [exact Hbody|]. split; [|split].
  - intros fuel. cbn [crawl]. now rewrite Hbody.
  - apply loopBody_requests.
  - now rewrite Hbody.
Qed.

(** C1, as amended: when the next-page anchor was found and reading its
    href fails, the pass logs the failure and goes on to the next
    iteration with [pageURL] set to the empty string, the value returned
    next to the error; the next request is for the empty URL. *)
Theorem next_page_without_href
        (pageURL bodyHTML err : string) (pageHTML next : Node) (w : World) :
  getPageHTML pageURL = Ok bodyHTML ->
  html_Parse bodyHTML = Ok pageHTML ->
  len (findItemElementsByClass pageHTML "li" "s-item" (Mk [])) <> 0 ->
  findFirstElementByAttr pageHTML "a" "class" "pagination__next icon-link" = Some next ->
  getElementAttrByName next "href" = Err err ->
  loopBody pageURL w
  = (Continue "",
     say ("ERROR::Failed to get next page " ++ err ++ LF)
         (processed (findItemElementsByClass pageHTML "li" "s-item" (Mk []))
                    (logRequest pageURL w)))
  /\ (forall fuel,
        crawl (S fuel) pageURL w = crawl fuel "" (snd (loopBody pageURL w)))
  /\ (forall w', requests (snd (loopBody "" w')) = (requests w' ++ [""])%list).
Proof.
  intros Hget Hparse Hlen Hnext Hhref.
  assert (Hbody := loopBody_processed pageURL bodyHTML pageHTML w Hget Hparse Hlen).
  cbv zeta in Hbody. rewrite Hnext, Hhref in Hbody.
  split; [exact Hbody|]. split.
  - intros fuel. cbn [crawl]. now rewrite Hbody.
  - intros w'. apply loopBody_requests.
Qed.

End LoopProperties.

Lemma no_items_is_fatal_witness :
  @getPageHTML (Site.serving Site.emptyPage) Site.home = Ok Site.home /\
  @crawl (Site.serving Site.emptyPage) 5 Site.home (Site.blank (Site.serving Site.emptyPage) [])
  = Some (1%Z, @mkWorld (Site.serving Site.emptyPage)
                 ["Failed to get items" ++ LF] [] [Site.home]).
Proof.
  split; [reflexivity|].
  apply (proj1 (proj2 (@no_items_is_fatal (Site.serving Site.emptyPage)
                         Site.home Site.home Site.emptyPage
                         (Site.blank (Site.serving Site.emptyPage) [])
                         eq_refl eq_refl eq_refl))).
Defined.

Lemma next_page_without_href_witness :
  @getElementAttrByName Site.nextNowhere "href" = Err "ERROR::Attribute href not found" /\
  fst (@loopBody (Site.serving Site.brokenNext) Site.home
         (Site.blank (Site.serving Site.brokenNext) []))
  = Continue "".
Proof.
  split; [reflexivity|].
  rewrite (proj1 (@next_page_without_href (Site.serving Site.brokenNext)
                    Site.home Site.home "ERROR::Attribute href not found"
                    Site.brokenNext Site.nextNowhere
                    (Site.blank (Site.serving Site.brokenNext) [])
                    eq_refl eq_refl ltac:(discriminate) eq_refl eq_refl)).
  reflexivity.
Defined.

(** C1, as stated, fails: on a page whose next-page anchor has no href the
    pass does not keep the old URL, it continues with the empty one; the
    second request is for the empty URL, not for the same page. *)
Lemma next_page_is_not_the_old_url :
  fst (@loopBody (Site.serving Site.brokenNext) Site.home
         (Site.blank (Site.serving Site.brokenNext) []))
  <> Continue Site.home
  /\ option_map (fun r => requests (snd r))
       (@crawl (Site.serving Site.brokenNext) 2 Site.home
          (Site.blank (Site.serving Site.brokenNext) []))
     = Some [Site.home; ""].
Proof. split; [discriminate | reflexivity]. Qed.

(** ** Persistence *)

(** C10: the error a run of [processItemNode] returns, and the way a pass
    of [main] ends, are the same whatever [os.Mkdir] and [os.WriteFile] do
    and return: a run that returns [nil] on one file system returns [nil]
    on every other, written or not. *)
Theorem write_errors_are_ignored
        (P : Platform) (FS' : Type)
        (mkdir' : string -> FS' -> FS' * option string)
        (write' : string -> string -> FS' -> FS' * option string)
        (item : Node) (pageURL : string)
        (w : @World P) (w' : @World (withFS P mkdir' write')) :
  fst (@processItemNode (withFS P mkdir' write') item w')
  = fst (@processItemNode P item w)
  /\ fst (@loopBody (withFS P mkdir' write') pageURL w')
     = fst (@loopBody P pageURL w).
Proof.
  split; [apply processItemNode_sameResult|].
  unfold loopBody.
  change (@getPageHTML (withFS P mkdir' write') pageURL) with (@getPageHTML P pageURL).
  destruct (@getPageHTML P pageURL) as [bodyHTML|err]; [|reflexivity].
  change (@html_Parse (withFS P mkdir' write') bodyHTML) with (@html_Parse P bodyHTML).
  destruct (@html_Parse P bodyHTML) as [pageHTML|err]; [|reflexivity].
  destruct (isNil _); [reflexivity|].
  destruct (len _ =? 0)%nat; [reflexivity|].
  destruct (findFirstElementByAttr pageHTML _ _ _) as [next|]; [|reflexivity].
  now destruct (getElementAttrByName next "href").
Qed.

(** On a file system that refuses every write the run of a complete entry
    still returns [nil], and no file exists afterwards. *)
Example refused_write_returns_nil :
  @processItemNode Site.readOnly Site.dell (Site.blank Site.readOnly [])
  = (Ok tt, @mkWorld Site.readOnly
              ["WARNING::Condition DIV node not found 222" ++ LF] [] []).
Proof. reflexivity. Qed.

(** ** The fields of an item *)

Section FieldProperties.

Context {platform : Platform}.
Import Fields.

(** C5: an item without a subtitle container, its other fields found, is
    written with an empty condition after a warning; an item whose
    subtitle container holds no [SECONDARY_INFO] span fails, nothing is
    printed or written for it, and the items after it are run as if it
    were not there. *)
Theorem condition_is_asymmetric (item : Node) (w : World) :
  leafy item = true ->
  (subtitle item = None ->
   forall i u p t,
     id item = Some i -> productURL item = Some u ->
     price item = Some p -> title item = Some t ->
     processItemNode item w
     = (Ok tt,
        snd (WriteFile ("data/" ++ i ++ ".json")
               (json_MarshalIndent (mkItemInfo t "" p u))
               (say ("WARNING::Condition DIV node not found " ++ i ++ LF) w))))
  /\ (forall d,
        subtitle item = Some d ->
        firstByAttr d "span" "class" "SECONDARY_INFO" = None ->
        (exists err, processItemNode item w = (Err err, w))
        /\ forall rest, dispatch (item :: rest) w = dispatch rest w).
Proof.
  intros Hl. split.
  - intros Hsub i u p t Hi Hu Hp Ht.
    assert (Hc : condition item = Some "") by (unfold condition; now rewrite Hsub).
    rewrite (processItemNode_persists item w i u p t "" Hl Hi Hu Hp Ht Hc).
    unfold persisted. rewrite (findFirstElementByAttr_find _ _ _ item Hl).
    unfold subtitle in Hsub. now rewrite Hsub.
  - intros d Hsub Hspan.
    assert (Hc : condition item = None)
      by (unfold condition; rewrite Hsub; cbn [andThen]; now rewrite Hspan).
    destruct (processItemNode_fails item w Hl (or_intror (or_intror (or_intror Hc))))
      as [err [_ Hrun]].
    split; [now exists err|].
    intros rest. rewrite dispatch_cons. now rewrite Hrun.
Qed.

(** C6, as amended: when the id, the price, the title or the product URL
    of an item is missing, its run returns an error that starts with
    [ERROR::] and changes nothing: no message is printed (the caller drops
    the returned error) and no file is written.  The item is run once; the
    other items of the page are run as if it were not there, and the way
    the pass ends does not depend on what the runs did. *)
Theorem mandatory_miss_skips_item (item : Node) (w : World) :
  leafy item = true ->
  id item = None \/ price item = None \/ title item = None \/ productURL item = None ->
  (exists err, String.prefix "ERROR::" err = true
               /\ processItemNode item w = (Err err, w))
  /\ (forall before after w0,
        dispatch (before ++ item :: after) w0 = dispatch (before ++ after) w0)
  /\ (forall pageURL w1 w2, fst (loopBody pageURL w1) = fst (loopBody pageURL w2)).
Proof.
  intros Hl Hmiss.
  assert (Hmiss' : id item = None \/ price item = None \/ title item = None
                   \/ condition item = None).
  { destruct Hmiss as [H|[H|[H|H]]]; auto using productURL_id. }
  split; [now apply processItemNode_fails|]. split.
  - intros before after w0. apply dispatch_skip. intros w1.
    destruct (processItemNode_fails item w1 Hl Hmiss') as [err [_ Hrun]].
    now rewrite Hrun.
  - apply loopBody_control.
Qed.

(** C9, as amended: the title written for an item is the direct text,
    unchanged, of the first [span] whose role attribute contains
    [heading], searched in the first [div] whose class contains
    [s-item__title]; without that [div], or without that [span] in it, the
    run of the item fails and changes nothing. *)
Theorem title_recipe (item : Node) (w : World) :
  leafy item = true ->
  (forall w', processItemNode item w = (Ok tt, w') ->
     exists d s t i u p c,
       firstByAttr item "div" "class" "s-item__title" = Some d
       /\ firstByAttr d "span" "role" "heading" = Some s
       /\ firstTextValue s = Some t
       /\ w' = persisted item i (mkItemInfo t c p u) w)
  /\ (firstByAttr item "div" "class" "s-item__title" = None ->
      exists err, processItemNode item w = (Err err, w))
  /\ (forall d,
        firstByAttr item "div" "class" "s-item__title" = Some d ->
        firstByAttr d "span" "role" "heading" = None ->
        exists err, processItemNode item w = (Err err, w)).
Proof.
  intros Hl. split; [|split].
  - intros w' Hrun.
    destruct (processItemNode_ok item w w' Hl Hrun)
      as [i [u [p [t [c [_ [_ [_ [Ht [_ ->]]]]]]]]]].
    unfold title in Ht.
    destruct (firstByAttr item "div" "class" "s-item__title") as [d|]; [|discriminate].
    cbn [andThen] in Ht.
    destruct (firstByAttr d "span" "role" "heading") as [s|] eqn:Hs; [|discriminate].
    cbn [andThen] in Ht. exists d, s, t, i, u, p, c. auto.
  - intros Hdiv.
    assert (Ht : title item = None) by (unfold title; now rewrite Hdiv).
    destruct (processItemNode_fails item w Hl (or_intror (or_intror (or_introl Ht))))
      as [err [_ Hrun]].
    now exists err.
  - intros d Hdiv Hspan.
    assert (Ht : title item = None)
      by (unfold title; rewrite Hdiv; cbn [andThen]; now rewrite Hspan).
    destruct (processItemNode_fails item w Hl (or_intror (or_intror (or_introl Ht))))
      as [err [_ Hrun]].
    now exists err.
Qed.

(** C3, as amended: the id of an item is read off the href of the first
    [a] whose class contains [s-item__link]: it is the run of digits that
    the pattern [itm\/([0-9]+)\?] captures, so the href must hold [itm/],
    the digits and a literal question mark in a row.  Without the anchor,
    without its href, or when the href holds no such run, the run of the
    item fails and changes nothing. *)
Theorem id_recipe (item : Node) (w : World) :
  leafy item = true ->
  (forall w', processItemNode item w = (Ok tt, w') ->
     exists a href i p t c,
       firstByAttr item "a" "class" "s-item__link" = Some a
       /\ attrValue a "href" = Some href
       /\ FindStringSubmatch itemIDRegEx href = Some ["itm/" ++ i ++ "?"; i]
       /\ Tokens.holdsItemID href i
       /\ w' = persisted item i (mkItemInfo t c p href) w)
  /\ (firstByAttr item "a" "class" "s-item__link" = None ->
      exists err, processItemNode item w = (Err err, w))
  /\ (forall a,
        firstByAttr item "a" "class" "s-item__link" = Some a ->
        attrValue a "href" = None ->
        exists err, processItemNode item w = (Err err, w))
  /\ (forall a href,
        firstByAttr item "a" "class" "s-item__link" = Some a ->
        attrValue a "href" = Some href ->
        (forall i, ~ Tokens.holdsItemID href i) ->
        exists err, processItemNode item w = (Err err, w)).
Proof.
  intros Hl.
  assert (Hfail : id item = None -> exists err, processItemNode item w = (Err err, w)).
  { intros Hi. destruct (processItemNode_fails item w Hl (or_introl Hi)) as [err [_ Hrun]].
    now exists err. }
  split; [|split; [|split]].
  - intros w' Hrun.
    destruct (processItemNode_ok item w w' Hl Hrun)
      as [i [u [p [t [c [Hi [Hu [_ [_ [_ ->]]]]]]]]]].
    unfold id in Hi. rewrite Hu in Hi. cbn [andThen] in Hi.
    unfold productURL in Hu.
    destruct (firstByAttr item "a" "class" "s-item__link") as [a|]; [|discriminate].
    cbn [andThen] in Hu.
    destruct (FindStringSubmatch itemIDRegEx u) as [m|] eqn:Hm; [|discriminate].
    cbn [andThen] in Hi.
    destruct (FindStringSubmatch_itemIDRegEx_some u m Hm) as [i' [-> Hholds]].
    cbn [nth_error] in Hi. injection Hi as ->.
    exists a, u, i, p, t, c. auto.
  - intros Ha. apply Hfail. unfold id, productURL. now rewrite Ha.
  - intros a Ha Hhref. apply Hfail. unfold id, productURL. rewrite Ha.
    cbn [andThen]. now rewrite Hhref.
  - intros a href Ha Hhref Hnone. apply Hfail. unfold id, productURL. rewrite Ha.
    cbn [andThen]. rewrite Hhref. cbn [andThen].
    apply FindStringSubmatch_itemIDRegEx_none in Hnone. now rewrite Hnone.
Qed.

(** C2, as amended: the price written for an item is what [priceRegEx]
    finds first in the direct text of its price node: from the first
    digit, the digits, the dots and commas after them and the digits
    after those.  For the text [$1,234.56 to $1,500.00] that is [1,234]. *)
Theorem price_is_first_token (item span : Node) (text : string) (w w' : World) :
  leafy item = true ->
  firstByAttr item "span" "class" "s-item__price" = Some span ->
  firstTextValue span = Some text ->
  processItemNode item w = (Ok tt, w') ->
  exists p i u t c,
    FindStringSubmatch priceRegEx text = Some [p]
    /\ Tokens.priceToken text = Some p
    /\ w' = persisted item i (mkItemInfo t c p u) w
    /\ (text = "$1,234.56 to $1,500.00" -> p = "1,234").
Proof.
  intros Hl Hspan Htext Hrun.
  destruct (processItemNode_ok item w w' Hl Hrun)
    as [i [u [p [t [c [_ [_ [Hp [_ [_ ->]]]]]]]]]].
  unfold price in Hp. rewrite Hspan in Hp. cbn [andThen] in Hp.
  rewrite Htext in Hp. cbn [andThen] in Hp.
  rewrite FindStringSubmatch_priceRegEx in Hp |- *.
  destruct (Tokens.priceToken text) as [p'|] eqn:Htok; [|discriminate].
  cbn [option_map andThen nth_error] in Hp. injection Hp as ->.
  exists p, i, u, t, c. repeat split.
  intros ->. now injection Htok as <-.
Qed.

End FieldProperties.

Lemma condition_is_asymmetric_witness :
  leafy Site.dell = true /\ Fields.subtitle Site.dell = None /\
  @processItemNode Site.offline Site.dell (Site.blank Site.offline [])
  = (Ok tt,
     @mkWorld Site.offline
       ["WARNING::Condition DIV node not found 222" ++ LF]
       [("data/222.json",
         Site.marshal (mkItemInfo "Dell" "" "12.99" "https://www.ebay.com/itm/222?x"))]
       [])
  /\ leafy Site.bare = true
  /\ exists err,
       @processItemNode Site.offline Site.bare (Site.blank Site.offline [])
       = (Err err, Site.blank Site.offline []).
Proof.
  split; [reflexivity|]. split; [reflexivity|]. split.
  - exact (proj1 (@condition_is_asymmetric Site.offline Site.dell
                    (Site.blank Site.offline []) eq_refl)
             eq_refl "222" "https://www.ebay.com/itm/222?x" "12.99" "Dell"
             eq_refl eq_refl eq_refl eq_refl).
  - split; [reflexivity|].
    exact (proj1 (proj2 (@condition_is_asymmetric Site.offline Site.bare
                           (Site.blank Site.offline []) eq_refl)
                    (Site.elem "div" [Site.attr "class" "s-item__subtitle"]
                       [Site.text "Brand New"])
                    eq_refl eq_refl)).
Defined.

Lemma mandatory_miss_skips_item_witness :
  leafy Site.priceless = true /\ Fields.price Site.priceless = None /\
  exists err,
    String.prefix "ERROR::" err = true
    /\ @processItemNode Site.offline Site.priceless (Site.blank Site.offline [])
       = (Err err, Site.blank Site.offline []).
Proof.
  split; [reflexivity|]. split; [reflexivity|].
  exact (proj1 (@mandatory_miss_skips_item Site.offline Site.priceless
                  (Site.blank Site.offline []) eq_refl
                  (or_intror (or_introl eq_refl)))).
Defined.

(** C6, as stated, fails on the message: the run of an entry without a
    price returns its error, and a crawl of the page that holds it prints
    the count of entries and nothing else. *)
Lemma per_item_error_prints_nothing :
  @processItemNode Site.offline Site.priceless (Site.blank Site.offline [])
  = (Err "ERROR::Price node not found", Site.blank Site.offline [])
  /\ @crawl (Site.serving Site.pricelessPage) 1 Site.home
       (Site.blank (Site.serving Site.pricelessPage) [])
     = Some (0%Z, @mkWorld (Site.serving Site.pricelessPage)
                    ["Found 1 items" ++ LF] [] [Site.home]).
Proof. split; reflexivity. Qed.

Lemma title_recipe_witness :
  leafy Site.sponsored = true /\
  exists d s t i u p c,
    Fields.firstByAttr Site.sponsored "div" "class" "s-item__title" = Some d
    /\ Fields.firstByAttr d "span" "role" "heading" = Some s
    /\ Fields.firstTextValue s = Some t
    /\ snd (@processItemNode Site.offline Site.sponsored (Site.blank Site.offline []))
       = @persisted Site.offline Site.sponsored i (mkItemInfo t c p u)
           (Site.blank Site.offline []).
Proof.
  split; [reflexivity|].
  exact (proj1 (@title_recipe Site.offline Site.sponsored
                  (Site.blank Site.offline []) eq_refl)
           (snd (@processItemNode Site.offline Site.sponsored (Site.blank Site.offline [])))
           eq_refl).
Defined.

(** C9, as stated, fails when a [span] whose role only contains the word
    comes first: the first [span] with role [heading] holds another text
    than the title that is written. *)
Lemma title_is_not_role_equal :
  AsStated.title Site.sponsored = Some "ThinkPad T480"
  /\ @processItemNode Site.offline Site.sponsored (Site.blank Site.offline [])
     = (Ok tt,
        @mkWorld Site.offline
          ["WARNING::Condition DIV node not found 555" ++ LF]
          [("data/555.json",
            Site.marshal (mkItemInfo "Sponsored" "" "5" "https://www.ebay.com/itm/555?x"))]
          []).
Proof. split; reflexivity. Qed.

Lemma id_recipe_witness :
  leafy Site.thinkpad = true /\
  exists a href i p t c,
    Fields.firstByAttr Site.thinkpad "a" "class" "s-item__link" = Some a
    /\ Fields.attrValue a "href" = Some href
    /\ FindStringSubmatch itemIDRegEx href = Some ["itm/" ++ i ++ "?"; i]
    /\ Tokens.holdsItemID href i
    /\ snd (@processItemNode Site.offline Site.thinkpad (Site.blank Site.offline []))
       = @persisted Site.offline Site.thinkpad i (mkItemInfo t c p href)
           (Site.blank Site.offline []).
Proof.
  split; [reflexivity|].
  exact (proj1 (@id_recipe Site.offline Site.thinkpad (Site.blank Site.offline []) eq_refl)
           (snd (@processItemNode Site.offline Site.thinkpad (Site.blank Site.offline [])))
           eq_refl).
Defined.

(** C3, as stated, fails on an href without a query string: the pattern
    of the specification, with its optional group, extracts the digits,
    while the run of the item fails on the pattern of the code. *)
Lemma id_needs_the_question_mark :
  Fields.productURL Site.noQuery = Some "https://www.ebay.com/itm/123456789012"
  /\ AsStated.id Site.noQuery = Some "123456789012"
  /\ @processItemNode Site.offline Site.noQuery (Site.blank Site.offline [])
     = (Err ("ERROR::Price value cannot be parsed" ++ LF ++ "%!s(<nil>)"),
        Site.blank Site.offline []).
Proof. repeat split; reflexivity. Qed.

Lemma price_is_first_token_witness :
  leafy Site.thinkpad = true /\
  exists p i u t c,
    FindStringSubmatch priceRegEx "$1,234.56 to $1,500.00" = Some [p]
    /\ Tokens.priceToken "$1,234.56 to $1,500.00" = Some p
    /\ snd (@processItemNode Site.offline Site.thinkpad (Site.blank Site.offline []))
       = @persisted Site.offline Site.thinkpad i (mkItemInfo t c p u)
           (Site.blank Site.offline [])
    /\ ("$1,234.56 to $1,500.00" = "$1,234.56 to $1,500.00" -> p = "1,234").
Proof.
  split; [reflexivity|].
  exact (@price_is_first_token Site.offline Site.thinkpad
           (Site.elem "span" [Site.attr "class" "s-item__price"]
              [Site.text "$1,234.56 to $1,500.00"])
           "$1,234.56 to $1,500.00" (Site.blank Site.offline [])
           (snd (@processItemNode Site.offline Site.thinkpad (Site.blank Site.offline [])))
           eq_refl eq_refl eq_refl eq_refl).
Defined.

(** C2, as stated, fails on its own example: the pattern stops before the
    second separator, so the price found in [$1,234.56 to $1,500.00], and
    written for an entry with that text, is [1,234]. *)
Lemma price_stops_at_second_separator :
  FindStringSubmatch priceRegEx "$1,234.56 to $1,500.00" = Some ["1,234"]
  /\ FindStringSubmatch priceRegEx "$1,234.56 to $1,500.00" <> Some ["1,234.56"]
  /\ @processItemNode Site.offline Site.thinkpad (Site.blank Site.offline [])
     = (Ok tt,
        @mkWorld Site.offline []
          [("data/123456789012.json",
            Site.marshal (mkItemInfo "ThinkPad T480" "Pre-Owned" "1,234"
                            "https://www.ebay.com/itm/123456789012?hash=item1"))]
          []).
Proof. split; [reflexivity|]. split; [discriminate | reflexivity]. Qed.

(** * Further properties of the code *)

(** ** The readers *)

Section FirstOfAList.

Variable A : Type.
Variable p : A -> bool.

(** [find] returns the first element that passes the test. *)
Lemma find_first (l : list A) (x : A) :
  find p l = Some x <->
  exists pre post, l = (pre ++ x :: post)%list /\ p x = true
                   /\ Forall (fun y => p y = false) pre.
Proof.
  induction l as [|y l IH]; cbn [find].
  - split; [discriminate|]. intros [pre [post [H _]]]. now destruct pre.
  - destruct (p y) eqn:Hy.
    + split.
      * intros [= <-]. now exists [], l.
      * intros [pre [post [H [Hx Hpre]]]]. destruct pre as [|z pre].
        -- now injection H as ->.
        -- injection H as <- _. inversion Hpre; congruence.
    + rewrite IH. split; intros [pre [post [H [Hx Hpre]]]].
      * exists (y :: pre), post. subst l. repeat split; auto.
      * destruct pre as [|z pre].
        -- injection H as -> _. congruence.
        -- injection H as <- ->. exists pre, post. inversion Hpre. auto.
Qed.

End FirstOfAList.

(** X1: [getElementAttrByName] returns the value of the first attribute
    whose key is exactly [attrName], later attributes with that key being
    ignored; it fails on every node that is not an element, whatever its
    attributes, and on an element without such a key. *)
Theorem getElementAttrByName_first_exact_key (n : Node) (attrName v : string) :
  (getElementAttrByName n attrName = Ok v <->
   isElement n = true
   /\ exists pre a post,
        Attr n = (pre ++ a :: post)%list /\ Key a = attrName /\ Val a = v
        /\ Forall (fun b => Key b <> attrName) pre)
  /\ (isElement n = false ->
      getElementAttrByName n attrName = Err "ERROR::Node is not an element")
  /\ (isElement n = true ->
      (forall a, In a (Attr n) -> Key a <> attrName) ->
      getElementAttrByName n attrName = Err ("ERROR::Attribute " ++ attrName ++ " not found")).
Proof.
  unfold getElementAttrByName. split; [|split].
  - destruct (isElement n); [|split; [discriminate | intros [H _]; discriminate]].
    destruct (find (fun a => Key a =? attrName) (Attr n)) as [a|] eqn:Hf.
    + pose proof (proj1 (find_first _ _ _ _) Hf) as [pre [post [Hl [Ha Hpre]]]].
      apply String.eqb_eq in Ha.
      assert (Hpre' : Forall (fun b => Key b <> attrName) pre).
      { eapply Forall_impl; [|exact Hpre]. intros b Hb. now apply String.eqb_neq. }
      split.
      * intros [= <-]. split; [reflexivity|]. now exists pre, a, post.
      * intros [_ [pre2 [a2 [post2 [Hl2 [Ha2 [Hv2 Hpre2]]]]]]].
        assert (Hf2 : find (fun a => Key a =? attrName) (Attr n) = Some a2).
        { apply find_first. exists pre2, post2. repeat split; auto.
          - now apply String.eqb_eq.
          - eapply Forall_impl; [|exact Hpre2]. intros b Hb. now apply String.eqb_neq. }
        rewrite Hf in Hf2. injection Hf2 as ->. now rewrite Hv2.
    + split; [discriminate|].
      intros [_ [pre [a [post [Hl [Ha _]]]]]].
      assert (Hin : In a (Attr n)) by (rewrite Hl; apply in_elt).
      apply (find_none _ _ Hf) in Hin. apply String.eqb_neq in Hin. contradiction.
  - now intros ->.
  - intros -> Hnone.
    destruct (find (fun a => Key a =? attrName) (Attr n)) as [a|] eqn:Hf; [|reflexivity].
    apply find_some in Hf as [Hin Ha]. apply String.eqb_eq in Ha.
    now destruct (Hnone a Hin).
Qed.

Lemma getElementAttrByName_first_exact_key_witness :
  getElementAttrByName
    (Site.elem "a" [Site.attr "class" "x"; Site.attr "href" "/p2"; Site.attr "href" "/p3"] [])
    "href" = Ok "/p2"
  /\ getElementAttrByName (mkNode TextNode "t" [Site.attr "href" "/p2"] []) "href"
     = Err "ERROR::Node is not an element"
  /\ getElementAttrByName (Site.elem "a" [Site.attr "HREF" "/p2"] []) "href"
     = Err "ERROR::Attribute href not found".
Proof.
  split; [|split].
  - apply (proj2 (proj1 (getElementAttrByName_first_exact_key
                           (Site.elem "a" [Site.attr "class" "x"; Site.attr "href" "/p2";
                                           Site.attr "href" "/p3"] [])
                           "href" "/p2"))).
    split; [reflexivity|].
    exists [Site.attr "class" "x"], (Site.attr "href" "/p2"), [Site.attr "href" "/p3"].
    repeat split. constructor; [discriminate | constructor].
  - apply (proj1 (proj2 (getElementAttrByName_first_exact_key
                           (mkNode TextNode "t" [Site.attr "href" "/p2"] []) "href" ""))).
    reflexivity.
  - apply (proj2 (proj2 (getElementAttrByName_first_exact_key
                           (Site.elem "a" [Site.attr "HREF" "/p2"] []) "href" ""))).
    + reflexivity.
    + intros a [<-|[]]. discriminate.
Defined.

(** X2: [getElementNodeVal] returns the data of the first direct child
    that is a text node and looks no deeper: when no direct child is a
    text node it fails, whatever text the descendants hold. *)
Theorem getElementNodeVal_first_direct_text (n : Node) (s : string) :
  (getElementNodeVal n = Ok s <->
   exists pre c post,
     Children n = (pre ++ c :: post)%list /\ isText c = true /\ Data c = s
     /\ Forall (fun b => isText b = false) pre)
  /\ ((forall c, In c (Children n) -> isText c = false) ->
      getElementNodeVal n = Err "ERROR::No text node found").
Proof.
  unfold getElementNodeVal. split.
  - destruct (find isText (Children n)) as [c|] eqn:Hf.
    + pose proof (proj1 (find_first _ _ _ _) Hf) as [pre [post [Hl [Hc Hpre]]]].
      split.
      * intros [= <-]. now exists pre, c, post.
      * intros [pre2 [c2 [post2 [Hl2 [Hc2 [Hd2 Hpre2]]]]]].
        assert (Hf2 : find isText (Children n) = Some c2)
          by (apply find_first; now exists pre2, post2).
        rewrite Hf in Hf2. injection Hf2 as ->. now rewrite Hd2.
    + split; [discriminate|].
      intros [pre [c [post [Hl [Hc _]]]]].
      assert (Hin : In c (Children n)) by (rewrite Hl; apply in_elt).
      apply (find_none _ _ Hf) in Hin. congruence.
  - intros Hnone.
    destruct (find isText (Children n)) as [c|] eqn:Hf; [|reflexivity].
    apply find_some in Hf as [Hin Hc]. rewrite (Hnone c Hin) in Hc. discriminate.
Qed.

Lemma getElementNodeVal_first_direct_text_witness :
  getElementNodeVal
    (Site.elem "span" [] [Site.elem "b" [] [Site.text "New"]; Site.text "$5"; Site.text "$6"])
  = Ok "$5"
  /\ getElementNodeVal (Site.elem "span" [] [Site.elem "b" [] [Site.text "New"]])
     = Err "ERROR::No text node found".
Proof.
  split.
  - apply (proj2 (proj1 (getElementNodeVal_first_direct_text
                           (Site.elem "span" []
                              [Site.elem "b" [] [Site.text "New"]; Site.text "$5";
                               Site.text "$6"]) "$5"))).
    exists [Site.elem "b" [] [Site.text "New"]], (Site.text "$5"), [Site.text "$6"].
    repeat split. constructor; [reflexivity | constructor].
  - apply (proj2 (getElementNodeVal_first_direct_text
                    (Site.elem "span" [] [Site.elem "b" [] [Site.text "New"]]) "")).
    intros c [<-|[]]. reflexivity.
Defined.

(** ** The searches on every tree *)

(** X3: on every tree, parsed or not, [findFirstElementByAttr] returns the
    first qualifying node among the root and the nodes reached from it
    through element children only; what lies below a child that is not an
    element is never searched. *)
Theorem findFirstElementByAttr_element_order
        (root : Node) (tag attrName attrValue : string) :
  findFirstElementByAttr root tag attrName attrValue
  = find (Fields.tagged tag attrName attrValue) (elementOrder root).
Proof.
  induction root as [ty d attrs cs IH] using Node_ind.
  cbn [findFirstElementByAttr elementOrder find Children Attr Data].
  unfold Fields.tagged at 1, Fields.hasTag. cbn [Data Attr].
  destruct (isElement (mkNode ty d attrs cs) && (d =? tag)
            && attrContains attrName attrValue attrs); [reflexivity|].
  induction IH as [|c cs' Hc _ IHcs]; [reflexivity|].
  cbn [flat_map]. rewrite find_app, <- IHcs.
  destruct (isElement c); [now rewrite Hc | reflexivity].
Qed.

(** X4: whatever the tree, a node [findFirstElementByAttr] returns lies in
    the tree, is an element [tag] whose attribute [attrName] contains
    [attrValue], and is what the same search returns when started from
    it. *)
Theorem findFirstElementByAttr_found_qualifies
        (root n : Node) (tag attrName attrValue : string) :
  findFirstElementByAttr root tag attrName attrValue = Some n ->
  In n (preorder root)
  /\ isElement n = true /\ Data n = tag
  /\ (exists a, In a (Attr n) /\ Key a = attrName /\ Contains (Val a) attrValue = true)
  /\ findFirstElementByAttr n tag attrName attrValue = Some n.
Proof.
  intros H. apply findFirstElementByAttr_sound in H as [Hin Hq].
  split; [exact Hin|].
  assert (Hq' := Hq). unfold Fields.tagged, Fields.hasTag, attrContains in Hq.
  apply andb_true_iff in Hq as [Ht Ha]. apply andb_true_iff in Ht as [He Hd].
  apply String.eqb_eq in Hd. apply existsb_exists in Ha as [a [Hina Ha]].
  apply andb_true_iff in Ha as [Hk Hv]. apply String.eqb_eq in Hk.
  repeat split; auto.
  - now exists a.
  - destruct n as [ty d attrs cs]. cbn [findFirstElementByAttr Children Attr Data].
    unfold Fields.tagged, Fields.hasTag in Hq'. cbn [Data Attr] in Hq'. now rewrite Hq'.
Qed.

Lemma findFirstElementByAttr_found_qualifies_witness :
  findFirstElementByAttr Site.thinkpad "div" "class" "s-item__title"
  = Some (Site.elem "div" [Site.attr "class" "s-item__title"]
            [Site.elem "span" [Site.attr "role" "heading"] [Site.text "ThinkPad T480"]])
  /\ In (Site.elem "div" [Site.attr "class" "s-item__title"]
           [Site.elem "span" [Site.attr "role" "heading"] [Site.text "ThinkPad T480"]])
        (preorder Site.thinkpad).
Proof.
  split; [reflexivity|].
  exact (proj1 (findFirstElementByAttr_found_qualifies Site.thinkpad _
                  "div" "class" "s-item__title" eq_refl)).
Defined.

Section Accumulator.

Variables tag className : string.

(** The collection grows at its end, and a nil one stays nil until a node
    is selected. *)
Lemma findItemElementsByClass_slice (node : Node) (acc : slice Node) :
  findItemElementsByClass node tag className acc
  = match filter (selected tag className) (preorder node) with
    | [] => acc
    | found => Mk (elems acc ++ found)%list
    end.
Proof.
  revert acc. induction node as [ty d attrs cs IH] using Node_ind. intros acc.
  assert (Hloop : forall acc0,
    (fix children (cs0 : list Node) (itemList : slice Node) {struct cs0} : slice Node :=
       match cs0 with
       | [] => itemList
       | c :: cs' => children cs' (findItemElementsByClass c tag className itemList)
       end) cs acc0
    = match flat_map (fun x => filter (selected tag className) (preorder x)) cs with
      | [] => acc0
      | found => Mk (elems acc0 ++ found)%list
      end).
  { induction IH as [|c cs' Hc _ IHcs]; intros acc0; [reflexivity|].
    cbn [flat_map]. rewrite IHcs, Hc.
    destruct (filter (selected tag className) (preorder c)) as [|x l];
      [reflexivity|].
    cbn [app elems].
    destruct (flat_map _ cs') as [|y l']; [now rewrite app_nil_r|].
    now rewrite <- app_assoc. }
  cbn [preorder filter Children]. rewrite filter_flat_map.
  unfold selected at 1. cbn [findItemElementsByClass Attr Children Data].
  destruct (isElement (mkNode ty d attrs cs) && (d =? tag)); cbn [andb];
    [destruct (scanClassId attrs className "" "")|]; rewrite Hloop; try reflexivity.
  unfold append. cbn [elems app].
  destruct (flat_map _ cs) as [|y l']; [reflexivity|].
  now rewrite <- app_assoc.
Qed.

End Accumulator.

(** X5: [findItemElementsByClass] only appends: the nodes already in the
    collection it is given stay where they are, the selected nodes of the
    tree follow them in document order, and the result is nil exactly
    when the given collection is nil and no node of the tree is selected. *)
Theorem findItemElementsByClass_accumulates
        (node : Node) (tag className : string) (acc : slice Node) :
  elems (findItemElementsByClass node tag className acc)
  = (elems acc ++ filter (selected tag className) (preorder node))%list
  /\ isNil (findItemElementsByClass node tag className acc)
     = isNil acc && forallb (fun n => negb (selected tag className n)) (preorder node).
Proof.
  rewrite findItemElementsByClass_slice.
  assert (Hnone : forall l, forallb (fun n => negb (selected tag className n)) l
                            = match filter (selected tag className) l with
                              | [] => true | _ => false end).
  { induction l as [|x l IHl]; [reflexivity|]. cbn [forallb filter].
    destruct (selected tag className x); [reflexivity | exact IHl]. }
  rewrite Hnone.
  destruct (filter (selected tag className) (preorder node)) as [|x l].
  - rewrite app_nil_r, andb_true_r. now split.
  - rewrite andb_false_r. now split.
Qed.

Section AttributeOrder.

Variable f : Attribute -> bool.

Lemma existsb_Permutation (l l' : list Attribute) :
  Permutation l l' -> existsb f l = existsb f l'.
Proof.
  induction 1 as [|x l l' _ IH|x y l|l l' l'' _ IH1 _ IH2]; cbn [existsb].
  - reflexivity.
  - now rewrite IH.
  - now rewrite !orb_assoc, (orb_comm (f y)).
  - now rewrite IH1.
Qed.

End AttributeOrder.

(** X6: for a non-empty [className] the order of the attributes does not
    matter: two nodes of the same kind and tag whose attribute lists are
    permutations of each other are both selected or both left out. *)
Theorem selected_ignores_attribute_order (n n' : Node) (tag className : string) :
  className <> "" ->
  Type_ n = Type_ n' -> Data n = Data n' -> Permutation (Attr n) (Attr n') ->
  selected tag className n = selected tag className n'.
Proof.
  intros Hne Hty Hd Hperm. rewrite !selected_exact by exact Hne.
  unfold Fields.tagged, Fields.hasTag, Fields.hasId, attrContains, isElement.
  rewrite Hty, Hd.
  now rewrite (existsb_Permutation _ _ _ Hperm), (existsb_Permutation _ _ _ Hperm).
Qed.

Lemma selected_ignores_attribute_order_witness :
  selected "li" "s-item"
    (Site.elem "li" [Site.attr "id" "item1"; Site.attr "class" "s-item"] [])
  = selected "li" "s-item"
      (Site.elem "li" [Site.attr "class" "s-item"; Site.attr "id" "item1"] []).
Proof.
  apply selected_ignores_attribute_order;
    [discriminate | reflexivity | reflexivity | apply perm_swap].
Defined.

(** ** The price token *)

Section PriceTokenFacts.

Import Tokens.

Lemma dropWhile_head (p : ascii -> bool) (s : string) (c : ascii) (r : string) :
  dropWhile p s = String c r -> p c = false.
Proof.
  induction s as [|x s IH]; cbn [dropWhile]; [discriminate|].
  destruct (p x) eqn:Hx; [exact IH|]. now intros [= <- _].
Qed.

Lemma dropWhile_empty (p : ascii -> bool) (s : string) :
  dropWhile p s = "" <-> all p s = true.
Proof.
  induction s as [|x s IH]; cbn [dropWhile all]; [tauto|].
  destruct (p x); cbn [andb]; [exact IH|]. split; discriminate.
Qed.

Lemma all_append (p : ascii -> bool) (a b : string) :
  all p (a ++ b) = all p a && all p b.
Proof.
  induction a as [|x a IH]; cbn [String.append all]; [reflexivity|].
  now rewrite IH, andb_assoc.
Qed.

Lemma all_takeWhile_weaken (p q : ascii -> bool) (s : string) :
  (forall c, p c = true -> q c = true) -> all q (takeWhile p s) = true.
Proof.
  intros H. induction s as [|x s IH]; cbn [takeWhile all]; [reflexivity|].
  destruct (p x) eqn:Hx; [|reflexivity]. cbn [all]. now rewrite (H x Hx), IH.
Qed.

(** A price token starts with the first digit of the text and holds
    digits, dots and commas only. *)
Lemma priceToken_shape (s p : string) :
  priceToken s = Some p ->
  exists c rest pre post,
    p = String c rest /\ isDigit c = true
    /\ all (fun x => isDigit x || isSeparator x) rest = true
    /\ s = pre ++ String c rest ++ post
    /\ all (fun x => negb (isDigit x)) pre = true.
Proof.
  unfold priceToken.
  pose proof (takeWhile_dropWhile (fun c => negb (isDigit c)) s) as Hs.
  destruct (dropWhile (fun c => negb (isDigit c)) s) as [|c r] eqn:Hd; [discriminate|].
  apply dropWhile_head in Hd. apply negb_false_iff in Hd.
  cbn [takeWhile dropWhile]. rewrite Hd. intros [= <-].
  set (r1 := dropWhile isDigit r). set (r2 := dropWhile isSeparator r1).
  exists c, (takeWhile isDigit r ++ takeWhile isSeparator r1 ++ takeWhile isDigit r2),
    (takeWhile (fun c => negb (isDigit c)) s), (dropWhile isDigit r2).
  split; [reflexivity|]. split; [exact Hd|]. split; [|split].
  - rewrite !all_append, !all_takeWhile_weaken; try reflexivity.
    + intros x Hx. now rewrite Hx.
    + intros x Hx. rewrite Hx. apply orb_true_r.
    + intros x Hx. now rewrite Hx.
  - rewrite <- Hs at 1. f_equal. cbn [String.append]. f_equal.
    rewrite !append_assoc, (takeWhile_dropWhile isDigit r2).
    subst r2. rewrite (takeWhile_dropWhile isSeparator r1).
    subst r1. now rewrite takeWhile_dropWhile.
  - apply all_takeWhile.
Qed.

End PriceTokenFacts.

(** X7: [priceRegEx] finds nothing exactly in the texts without a digit;
    otherwise it finds one token, which starts at the first digit of the
    text, is therefore not empty, and holds digits, dots and commas only. *)
Theorem priceRegEx_first_token (text : string) :
  (FindStringSubmatch priceRegEx text = None
   <-> Tokens.all (fun c => negb (isDigit c)) text = true)
  /\ forall m,
       FindStringSubmatch priceRegEx text = Some m ->
       exists c rest pre post,
         m = [String c rest] /\ isDigit c = true
         /\ Tokens.all (fun x => isDigit x || Tokens.isSeparator x) rest = true
         /\ text = pre ++ String c rest ++ post
         /\ Tokens.all (fun x => negb (isDigit x)) pre = true.
Proof.
  rewrite FindStringSubmatch_priceRegEx. split.
  - rewrite <- dropWhile_empty. unfold Tokens.priceToken.
    destruct (Tokens.dropWhile (fun c => negb (isDigit c)) text);
      cbn [option_map]; split; (reflexivity || discriminate).
  - intros m Hm. destruct (Tokens.priceToken text) as [p|] eqn:Hp; [|discriminate].
    injection Hm as <-.
    destruct (priceToken_shape _ _ Hp) as [c [rest [pre [post [-> H]]]]].
    now exists c, rest, pre, post.
Qed.

Lemma priceRegEx_first_token_witness :
  exists c rest pre post,
    [ "12.99" ] = [String c rest] /\ isDigit c = true
    /\ Tokens.all (fun x => isDigit x || Tokens.isSeparator x) rest = true
    /\ "US $12.99/ea" = pre ++ String c rest ++ post
    /\ Tokens.all (fun x => negb (isDigit x)) pre = true.
Proof.
  exact (proj2 (priceRegEx_first_token "US $12.99/ea") ["12.99"] eq_refl).
Defined.

(** ** Every run of the item pipeline *)

Ltac differs := let H := fresh in intros H; cbn in H; discriminate H.

Section EveryRun.

Context {platform : Platform}.

(** On every tree a run either returns an error, which is not the one of
    line 206, and changes nothing, or has matched both patterns and writes
    the record. *)
Lemma processItemNode_outcome (item : Node) (w : World) :
  (exists err, String.prefix "ERROR::" err = true
               /\ err <> "ERROR::Item ID cannot be parsed"
               /\ processItemNode item w = (Err err, w))
  \/ (exists href m0 i text p t c,
        FindStringSubmatch itemIDRegEx href = Some [m0; i]
        /\ FindStringSubmatch priceRegEx text = Some [p]
        /\ processItemNode item w
           = (Ok tt, persisted item i (mkItemInfo t c p href) w)).
Proof.
  unfold processItemNode, persisted.
  destruct (findFirstElementByAttr item "a" "class" "s-item__link") as [link|];
    cbn [bind orReturn ret fail];
    [|left; eexists; split; [|split]; cycle 2; [reflexivity | reflexivity | differs]].
  destruct (getElementAttrByName link "href") as [href|e] eqn:Hhref;
    cbn [bind orWrap ret fail].
  2:{ left. exists ("ERROR::" ++ e). refine (conj _ (conj _ eq_refl)).
      - apply prefix_append. now exists e.
      - unfold getElementAttrByName in Hhref.
        destruct (isElement link); [destruct (find _ _)|]; try discriminate;
          injection Hhref as <-; differs. }
  destruct (FindStringSubmatch itemIDRegEx href) as [m|] eqn:Hm;
    cbn [bind orReturn ret fail];
    [|left; eexists; split; [|split]; cycle 2; [reflexivity | reflexivity | differs]].
  pose proof (FindStringSubmatch_length _ _ _ Hm) as Hlen.
  destruct m as [|m0 [|i [|x m]]]; try discriminate.
  cbn [length Nat.ltb Nat.leb bind ret nth].
  destruct (findFirstElementByAttr item "span" "class" "s-item__price") as [priceNode|];
    cbn [bind orReturn ret fail];
    [|left; eexists; split; [|split]; cycle 2; [reflexivity | reflexivity | differs]].
  destruct (getElementNodeVal priceNode) as [text|e] eqn:Htext;
    cbn [bind orWrap ret fail];
    [|left; eexists; split; [|split]; cycle 2; [reflexivity | reflexivity | differs]].
  destruct (FindStringSubmatch priceRegEx text) as [m2|] eqn:Hm2;
    cbn [bind orReturn ret fail];
    [|left; eexists; split; [|split]; cycle 2; [reflexivity | reflexivity | differs]].
  pose proof (FindStringSubmatch_length _ _ _ Hm2) as Hlen2.
  destruct m2 as [|p [|y m2]]; try discriminate. cbn [nth].
  destruct (findFirstElementByAttr item "div" "class" "s-item__title") as [titleDiv|];
    cbn [bind orReturn ret fail];
    [|left; eexists; split; [|split]; cycle 2; [reflexivity | reflexivity | differs]].
  destruct (findFirstElementByAttr titleDiv "span" "role" "heading") as [titleNode|];
    cbn [bind orReturn ret fail];
    [|left; eexists; split; [|split]; cycle 2; [reflexivity | reflexivity | differs]].
  destruct (getElementNodeVal titleNode) as [t|e];
    cbn [bind orWrap ret fail];
    [|left; eexists; split; [|split]; cycle 2; [reflexivity | reflexivity | differs]].
  destruct (findFirstElementByAttr item "div" "class" "s-item__subtitle") as [sub|].
  - rewrite !bind_assoc.
    destruct (findFirstElementByAttr sub "span" "class" "SECONDARY_INFO") as [condNode|];
      cbn [bind orReturn ret fail];
      [|left; eexists; split; [|split]; cycle 2; [reflexivity | reflexivity | differs]].
    destruct (getElementNodeVal condNode) as [c|e];
      cbn [bind orWrap ret fail];
      [|left; eexists; split; [|split]; cycle 2; [reflexivity | reflexivity | differs]].
    right. exists href, m0, i, text, p, t, c.
    split; [exact Hm|]. split; [exact Hm2|].
    unfold bind, WriteFile, ret. now destruct (os_WriteFile _ _ _).
  - right. exists href, m0, i, text, p, t, "".
    split; [exact Hm|]. split; [exact Hm2|].
    unfold bind, WriteFile, Print, ret. cbn [snd fs stdout requests].
    now destruct (os_WriteFile _ _ _).
Qed.

End EveryRun.

Section EveryRunProperties.

Context {platform : Platform}.

(** X8: on every tree a run of [processItemNode] is all or nothing.  It
    either returns an error and leaves the output and the file system as
    they were, or it returns [nil] after one call of [os.WriteFile], on
    [data/<id>.json], before which it printed nothing or the one warning
    about the condition. *)
Theorem processItemNode_all_or_nothing (item : Node) (w : World) :
  (exists err, processItemNode item w = (Err err, w))
  \/ (exists i record,
        fst (processItemNode item w) = Ok tt
        /\ fs (snd (processItemNode item w))
           = fst (os_WriteFile ("data/" ++ i ++ ".json") (json_MarshalIndent record) (fs w))
        /\ (stdout (snd (processItemNode item w)) = stdout w
            \/ stdout (snd (processItemNode item w))
               = (stdout w
                  ++ [("WARNING::Condition DIV node not found " ++ i ++ LF)%string])%list)
        /\ requests (snd (processItemNode item w)) = requests w).
Proof.
  destruct (processItemNode_outcome item w)
    as [[err [_ [_ Hrun]]] | [href [m0 [i [text [p [t [c [_ [_ Hrun]]]]]]]]]].
  - left. now exists err.
  - right. exists i, (mkItemInfo t c p href). rewrite Hrun. cbn [fst snd].
    unfold persisted, WriteFile, Print.
    destruct (findFirstElementByAttr item "div" "class" "s-item__subtitle");
      cbn [snd fs stdout requests];
      destruct (os_WriteFile _ _ _) as [fs' e]; cbn [snd fst fs stdout requests]; auto.
Qed.


(** X10: whatever the tree, when a run returns [nil] the id in the name of
    the file is a non-empty run of digits that stands in the product URL
    between [itm/] and a question mark, and the price starts with a digit
    and holds digits, dots and commas only. *)
Theorem written_record_is_well_formed (item : Node) (w w' : World) :
  processItemNode item w = (Ok tt, w') ->
  exists i record,
    w' = persisted item i record w
    /\ i <> "" /\ Tokens.all isDigit i = true
    /\ (exists pre post, ProductURL record = pre ++ "itm/" ++ i ++ "?" ++ post)
    /\ (exists c rest,
          Price record = String c rest /\ isDigit c = true
          /\ Tokens.all (fun x => isDigit x || Tokens.isSeparator x) rest = true).
Proof.
  intros Hok.
  destruct (processItemNode_outcome item w)
    as [[err [_ [_ Hrun]]] | [href [m0 [i [text [p [t [c [Hid [Hprice Hrun]]]]]]]]]].
  - rewrite Hrun in Hok. discriminate.
  - rewrite Hrun in Hok. injection Hok as <-.
    exists i, (mkItemInfo t c p href). split; [reflexivity|].
    apply FindStringSubmatch_itemIDRegEx_some in Hid as [i' [Hm [Hne [Hall Hin]]]].
    injection Hm as _ ->.
    repeat split; try assumption.
    rewrite FindStringSubmatch_priceRegEx in Hprice.
    destruct (Tokens.priceToken text) as [p'|] eqn:Hp; [|discriminate].
    injection Hprice as ->.
    destruct (priceToken_shape _ _ Hp) as [c0 [rest [_ [_ [-> [Hc [Hrest _]]]]]]].
    now exists c0, rest.
Qed.

End EveryRunProperties.

Lemma written_record_is_well_formed_witness :
  exists i record,
    snd (@processItemNode Site.offline Site.thinkpad (Site.blank Site.offline []))
    = @persisted Site.offline Site.thinkpad i record (Site.blank Site.offline [])
    /\ i <> "" /\ Tokens.all isDigit i = true
    /\ (exists pre post, ProductURL record = pre ++ "itm/" ++ i ++ "?" ++ post)
    /\ (exists c rest,
          Price record = String c rest /\ isDigit c = true
          /\ Tokens.all (fun x => isDigit x || Tokens.isSeparator x) rest = true).
Proof.
  exact (@written_record_is_well_formed Site.offline Site.thinkpad
           (Site.blank Site.offline [])
           (snd (@processItemNode Site.offline Site.thinkpad (Site.blank Site.offline [])))
           eq_refl).
Defined.

(** ** Fetching and the page loop *)

Section LoopFurther.

Context {platform : Platform}.

(** X11: [getPageHTML] returns the body exactly when the request could be
    built, the client answered and the body could be read, in that order;
    every error it returns starts with [ERROR::Can't]. *)
Theorem getPageHTML_stages (url : string) :
  (forall body,
     getPageHTML url = Ok body <->
     exists req res,
       http_NewRequest url = Ok req /\ http_Do req = Ok res /\ io_ReadAll res = Ok body)
  /\ (forall err, getPageHTML url = Err err -> String.prefix "ERROR::Can't " err = true).
Proof.
  unfold getPageHTML. split.
  - intros body. split.
    + destruct (http_NewRequest url) as [req|e]; [|discriminate].
      destruct (http_Do req) as [res|e] eqn:Hdo; [|discriminate].
      destruct (io_ReadAll res) as [b|e] eqn:Hread; [|discriminate].
      intros [= <-]. now exists req, res.
    + intros [req [res [-> [Hdo Hread]]]]. now rewrite Hdo, Hread.
  - intros err.
    destruct (http_NewRequest url) as [req|e];
      [destruct (http_Do req) as [res|e];
       [destruct (io_ReadAll res) as [b|e]; [discriminate|]|]|];
      intros [= <-]; apply prefix_append; eexists; reflexivity.
Qed.

(** A pass that exits has printed one line and has not touched the file
    system. *)
Lemma loopBody_exit (pageURL : string) (w w' : World) (code : Z) :
  loopBody pageURL w = (Exit code, w') ->
  code = 1%Z /\ fs w' = fs w /\ exists line, stdout w' = (stdout w ++ [line])%list.
Proof.
  unfold loopBody.
  destruct (getPageHTML pageURL) as [bodyHTML|err];
    [|intros [= <- <-]; repeat split; eexists; reflexivity].
  destruct (html_Parse bodyHTML) as [pageHTML|err];
    [|intros [= <- <-]; repeat split; eexists; reflexivity].
  destruct (isNil _); [intros [= <- <-]; repeat split; eexists; reflexivity|].
  destruct (len _ =? 0)%nat; [intros [= <- <-]; repeat split; eexists; reflexivity|].
  destruct (findFirstElementByAttr pageHTML _ _ _) as [next|]; [|discriminate].
  destruct (getElementAttrByName next "href"); discriminate.
Qed.

(** X12: a page that cannot be fetched or parsed ends the process: the
    pass prints the error of [getPageHTML], or [Can't parse HTML], and
    exits.  Every exit of a pass is with status 1, after one printed line,
    and before any call on the file system. *)
Theorem fetch_or_parse_failure_is_fatal (pageURL : string) (w : World) :
  (forall err,
     getPageHTML pageURL = Err err ->
     loopBody pageURL w = (Exit 1, say (err ++ LF) (logRequest pageURL w)))
  /\ (forall bodyHTML err,
        getPageHTML pageURL = Ok bodyHTML -> html_Parse bodyHTML = Err err ->
        loopBody pageURL w
        = (Exit 1, say ("Can't parse HTML" ++ LF) (logRequest pageURL w)))
  /\ (forall code w',
        loopBody pageURL w = (Exit code, w') ->
        code = 1%Z /\ fs w' = fs w
        /\ exists line, stdout w' = (stdout w ++ [line])%list).
Proof.
  split; [|split].
  - intros err Hget. unfold loopBody. now rewrite Hget.
  - intros bodyHTML err Hget Hparse. unfold loopBody. now rewrite Hget, Hparse.
  - intros code w'. apply loopBody_exit.
Qed.

(** X13: a page with items and without a next-page anchor is the last
    one: once its items are done the loop breaks and the process ends with
    status 0. *)
Theorem last_page_ends_crawl (pageURL bodyHTML : string) (pageHTML : Node) (w : World) :
  getPageHTML pageURL = Ok bodyHTML ->
  html_Parse bodyHTML = Ok pageHTML ->
  len (findItemElementsByClass pageHTML "li" "s-item" (Mk [])) <> 0 ->
  findFirstElementByAttr pageHTML "a" "class" "pagination__next icon-link" = None ->
  loopBody pageURL w
  = (Break, processed (findItemElementsByClass pageHTML "li" "s-item" (Mk []))
                      (logRequest pageURL w))
  /\ forall fuel,
       crawl (S fuel) pageURL w
       = Some (0%Z, processed (findItemElementsByClass pageHTML "li" "s-item" (Mk []))
                              (logRequest pageURL w)).
Proof.
  intros Hget Hparse Hlen Hnext.
  assert (Hbody := loopBody_processed pageURL bodyHTML pageHTML w Hget Hparse Hlen).
  cbv zeta in Hbody. rewrite Hnext in Hbody.
  split; [exact Hbody|]. intros fuel. cbn [crawl]. now rewrite Hbody.
Qed.

(** X14: when the next-page anchor has an href the loop goes on with that
    value as it stands, without resolving it against the current URL, once
    the items of the page are done. *)
Theorem next_page_is_followed
        (pageURL bodyHTML href : string) (pageHTML next : Node) (w : World) :
  getPageHTML pageURL = Ok bodyHTML ->
  html_Parse bodyHTML = Ok pageHTML ->
  len (findItemElementsByClass pageHTML "li" "s-item" (Mk [])) <> 0 ->
  findFirstElementByAttr pageHTML "a" "class" "pagination__next icon-link" = Some next ->
  getElementAttrByName next "href" = Ok href ->
  loopBody pageURL w
  = (Continue href,
     processed (findItemElementsByClass pageHTML "li" "s-item" (Mk []))
               (logRequest pageURL w))
  /\ forall fuel,
       crawl (S fuel) pageURL w
       = crawl fuel href
           (processed (findItemElementsByClass pageHTML "li" "s-item" (Mk []))
                      (logRequest pageURL w)).
Proof.
  intros Hget Hparse Hlen Hnext Hhref.
  assert (Hbody := loopBody_processed pageURL bodyHTML pageHTML w Hget Hparse Hlen).
  cbv zeta in Hbody. rewrite Hnext, Hhref in Hbody.
  split; [exact Hbody|]. intros fuel. cbn [crawl]. now rewrite Hbody.
Qed.

(** X15: the loop keeps no record of the pages it has seen: on a page
    whose next-page anchor links to the page itself no number of passes
    ends the crawl. *)
Theorem self_link_never_ends
        (pageURL bodyHTML : string) (pageHTML next : Node) :
  getPageHTML pageURL = Ok bodyHTML ->
  html_Parse bodyHTML = Ok pageHTML ->
  len (findItemElementsByClass pageHTML "li" "s-item" (Mk [])) <> 0 ->
  findFirstElementByAttr pageHTML "a" "class" "pagination__next icon-link" = Some next ->
  getElementAttrByName next "href" = Ok pageURL ->
  forall fuel w, crawl fuel pageURL w = None.
Proof.
  intros Hget Hparse Hlen Hnext Hhref.
  induction fuel as [|fuel IH]; intros w; [reflexivity|].
  cbn [crawl].
  rewrite (loopBody_processed pageURL bodyHTML pageHTML w Hget Hparse Hlen).
  cbv zeta. rewrite Hnext, Hhref. apply IH.
Qed.


(** X16: a crawl that ends does so with status 0 or 1; the URLs it
    requested are the one it started from followed by fewer further ones
    than it made passes, and nothing is removed from the ones requested
    before. *)
Theorem crawl_ends_with_0_or_1 (fuel : nat) (pageURL : string) (w w' : World) (code : Z) :
  crawl fuel pageURL w = Some (code, w') ->
  (code = 0%Z \/ code = 1%Z)
  /\ exists visited,
       requests w' = (requests w ++ pageURL :: visited)%list
       /\ length visited < fuel.
Proof.
  revert pageURL w.
  induction fuel as [|fuel IH]; intros pageURL w; [discriminate|].
  cbn [crawl]. pose proof (loopBody_requests pageURL w) as Hreq.
  destruct (loopBody pageURL w) as [[c | | next] w1] eqn:Hbody; cbn [snd] in Hreq.
  - intros [= <- <-]. apply loopBody_exit in Hbody as [-> _].
    split; [now right|]. exists []. split; [exact Hreq | cbn; lia].
  - intros [= <- <-]. split; [now left|]. exists []. split; [exact Hreq | cbn; lia].
  - intros H. apply IH in H as [Hcode [visited [Hv Hlen]]].
    split; [exact Hcode|]. exists (next :: visited). split; [|cbn; lia].
    rewrite Hv, Hreq, <- app_assoc. reflexivity.
Qed.


End LoopFurther.

Lemma getPageHTML_stages_witness :
  @getPageHTML Site.offline "" = Err ("ERROR::Can't make http request: Get : unsupported protocol scheme")
  /\ String.prefix "ERROR::Can't "
       "ERROR::Can't make http request: Get : unsupported protocol scheme" = true.
Proof.
  split; [reflexivity|].
  exact (proj2 (@getPageHTML_stages Site.offline "")
           "ERROR::Can't make http request: Get : unsupported protocol scheme" eq_refl).
Defined.

Lemma fetch_or_parse_failure_is_fatal_witness :
  @loopBody Site.offline "" (Site.blank Site.offline [])
  = (Exit 1,
     @mkWorld Site.offline
       ["ERROR::Can't make http request: Get : unsupported protocol scheme" ++ LF] [] [""]).
Proof.
  exact (proj1 (@fetch_or_parse_failure_is_fatal Site.offline "" (Site.blank Site.offline []))
           "ERROR::Can't make http request: Get : unsupported protocol scheme" eq_refl).
Defined.

Lemma last_page_ends_crawl_witness :
  option_map fst
    (@crawl (Site.serving (Site.page [Site.dell] [])) 3 Site.home
       (Site.blank (Site.serving (Site.page [Site.dell] [])) []))
  = Some 0%Z.
Proof.
  rewrite (proj2 (@last_page_ends_crawl (Site.serving (Site.page [Site.dell] []))
                    Site.home Site.home (Site.page [Site.dell] [])
                    (Site.blank (Site.serving (Site.page [Site.dell] [])) [])
                    eq_refl eq_refl ltac:(discriminate) eq_refl) 2).
  reflexivity.
Defined.

Lemma next_page_is_followed_witness :
  fst (@loopBody (Site.serving (Site.page [Site.dell] [Site.nextTo "/sch/page2"])) Site.home
         (Site.blank (Site.serving (Site.page [Site.dell] [Site.nextTo "/sch/page2"])) []))
  = Continue "/sch/page2".
Proof.
  rewrite (proj1 (@next_page_is_followed
                    (Site.serving (Site.page [Site.dell] [Site.nextTo "/sch/page2"]))
                    Site.home Site.home "/sch/page2"
                    (Site.page [Site.dell] [Site.nextTo "/sch/page2"])
                    (Site.nextTo "/sch/page2")
                    (Site.blank (Site.serving (Site.page [Site.dell] [Site.nextTo "/sch/page2"])) [])
                    eq_refl eq_refl ltac:(discriminate) eq_refl eq_refl)).
  reflexivity.
Defined.

Lemma self_link_never_ends_witness :
  @crawl (Site.serving (Site.page [Site.dell] [Site.nextTo Site.home])) 1000 Site.home
    (Site.blank (Site.serving (Site.page [Site.dell] [Site.nextTo Site.home])) [])
  = None.
Proof.
  exact (@self_link_never_ends (Site.serving (Site.page [Site.dell] [Site.nextTo Site.home]))
           Site.home Site.home (Site.page [Site.dell] [Site.nextTo Site.home])
           (Site.nextTo Site.home)
           eq_refl eq_refl ltac:(discriminate) eq_refl eq_refl 1000
           (Site.blank (Site.serving (Site.page [Site.dell] [Site.nextTo Site.home])) [])).
Defined.

Lemma crawl_ends_with_0_or_1_witness :
  (1%Z = 0%Z \/ 1%Z = 1%Z)
  /\ exists visited,
       [Site.home] = ([] ++ Site.home :: visited)%list /\ length visited < 5.
Proof.
  exact (@crawl_ends_with_0_or_1 (Site.serving Site.emptyPage) 5 Site.home
           (Site.blank (Site.serving Site.emptyPage) [])
           (@mkWorld (Site.serving Site.emptyPage)
              ["Failed to get items" ++ LF] [] [Site.home])
           1%Z eq_refl).
Defined.

